(** * youtube-chat-cli: a shallow embedding of [youtube-chat.py]

    The program is a terminal menu around three external services
    (caption retrieval, punctuation restoration, a chat-completion
    backend).  The embedding keeps the structure of the source:

    - Python [str] values are Rocq strings, read as sequences of code
      points below 256;
    - the methods of [YouTubeTranscriptHandler], [LLMHandler] and
      [VideoCLIApp] are functions in a state-and-exception monad whose
      state holds the two attributes of the controller
      ([_transcript], [_chat_history]), the state of the outside world and
      the trace of what the program wrote or requested;
    - the outside world (terminal, caption service, punctuation model,
      chat backend) and the [urllib.parse] functions are interfaces
      (type classes); every theorem about the program holds for all of
      their instances;
    - [while True] loops run on fuel: one unit per iteration. *)

From Stdlib Require Import String Ascii List Bool Arith Lia.
From stdpp Require Import base option list strings gmap.

Set Default Proof Using "Type*".

(** ** Python string primitives *)

Module PyStr.

Definition LF : ascii := "010"%char.
Definition nl : string := String LF "".
Definition dquote : string := String "034"%char "".

(** [s[1:]] *)
Definition slice_from_1 (s : string) : string :=
  match s with
  | EmptyString => EmptyString
  | String _ r => r
  end.

(** [sep.join(l)] *)
Fixpoint join (sep : string) (l : list string) : string :=
  match l with
  | [] => ""
  | [x] => x
  | x :: r => x +:+ sep +:+ join sep r
  end.

(** [s.startswith(p)] *)
Fixpoint startswith (p s : string) : bool :=
  match p, s with
  | EmptyString, _ => true
  | String a p', String b s' => if Ascii.eqb a b then startswith p' s' else false
  | String _ _, EmptyString => false
  end.

(** [sub in s] *)
Fixpoint contains (sub s : string) : bool :=
  startswith sub s ||
  match s with
  | EmptyString => false
  | String _ s' => contains sub s'
  end.

(** [s.replace(old, new)]: every non-overlapping occurrence of [old],
    scanning from the left.  [skip] counts the characters of a matched
    occurrence that are still to be passed over. *)
Fixpoint replace_scan (old new : string) (skip : nat) (s : string) : string :=
  match s with
  | EmptyString => EmptyString
  | String c s' =>
      match skip with
      | S k => replace_scan old new k s'
      | O =>
          if startswith old s
          then new +:+ replace_scan old new (String.length old - 1) s'
          else String c (replace_scan old new 0 s')
      end
  end.

(** With an empty [old], Python puts [new] before every character and at
    the end. *)
Fixpoint intersperse_all (new s : string) : string :=
  match s with
  | EmptyString => new
  | String c s' => new +:+ String c (intersperse_all new s')
  end.

Definition replace (old new s : string) : string :=
  match old with
  | EmptyString => intersperse_all new s
  | String _ _ => replace_scan old new 0 s
  end.

(** [str.isspace] on one character (code points below 256). *)
Definition isspace (c : ascii) : bool :=
  let n := nat_of_ascii c in
  ((9 <=? n) && (n <=? 13)) || ((28 <=? n) && (n <=? 32))
  || (n =? 133) || (n =? 160).

Fixpoint lstrip (s : string) : string :=
  match s with
  | EmptyString => EmptyString
  | String c s' => if isspace c then lstrip s' else s
  end.

(** [rstrip] drops the trailing run of whitespace: a character is kept as
    soon as something is kept after it. *)
Fixpoint rstrip (s : string) : string :=
  match s with
  | EmptyString => EmptyString
  | String c s' =>
      match rstrip s' with
      | EmptyString => if isspace c then EmptyString else String c EmptyString
      | r => String c r
      end
  end.

(** [s.strip()] *)
Definition strip (s : string) : string := rstrip (lstrip s).

(** [str.lower] on one character (code points below 256): the ASCII
    capitals and the Latin-1 capitals 0xC0-0xDE except the multiplication
    sign 0xD7. *)
Definition lower_char (c : ascii) : ascii :=
  let n := nat_of_ascii c in
  if ((65 <=? n) && (n <=? 90))
     || ((192 <=? n) && (n <=? 222) && negb (n =? 215))
  then ascii_of_nat (n + 32) else c.

Fixpoint lower (s : string) : string :=
  match s with
  | EmptyString => EmptyString
  | String c s' => String (lower_char c) (lower s')
  end.

(** [repr(s)] for a [str]: the quote is the apostrophe unless the string
    has an apostrophe and no double quote; the quote and the backslash are
    escaped, tab, line feed and carriage return get their letter, and the
    characters that are not printable (C0 and C1 controls, DEL, the
    no-break space and the soft hyphen) are written [\xhh]. *)
Definition hex_digit (n : nat) : ascii :=
  if n <? 10 then ascii_of_nat (48 + n) else ascii_of_nat (87 + n).

Definition repr_char (quote c : ascii) : string :=
  let n := nat_of_ascii c in
  if Ascii.eqb c quote || Ascii.eqb c "\"%char then String "\"%char (String c "")
  else if n =? 9 then "\t"
  else if n =? 10 then "\n"
  else if n =? 13 then "\r"
  else if (n <? 32) || ((127 <=? n) && (n <=? 160)) || (n =? 173)
  then String "\"%char (String "x"%char
         (String (hex_digit (n / 16)) (String (hex_digit (n mod 16)) "")))
  else String c "".

Fixpoint repr_body (quote : ascii) (s : string) : string :=
  match s with
  | EmptyString => EmptyString
  | String c s' => repr_char quote c +:+ repr_body quote s'
  end.

Definition repr (s : string) : string :=
  let quote : ascii :=
    if contains "'" s && negb (contains dquote s) then "034"%char else "'"%char in
  String quote (repr_body quote s +:+ String quote "").

Fixpoint string_forallb (p : ascii -> bool) (s : string) : bool :=
  match s with
  | EmptyString => true
  | String c r => p c && string_forallb p r
  end.

(** [s.split(c)] *)
Fixpoint split (c : ascii) (s : string) : list string :=
  match s with
  | EmptyString => [EmptyString]
  | String a r =>
      if Ascii.eqb a c then EmptyString :: split c r
      else match split c r with
           | x :: l => String a x :: l
           | [] => [String a EmptyString]
           end
  end.

End PyStr.


Import PyStr.

(** ** Values, exceptions and outcomes *)

(** The values that reach the [question] parameter: a [str] read from the
    terminal, or the list that star-unpacking builds in [_menu_loop]. *)
Inductive pyval :=
| PStr (s : string)
| PList (l : list string).

(** [f"{v}"]: [str(v)], which for a list is its [repr]. *)
Definition format_value (v : pyval) : string :=
  match v with
  | PStr s => s
  | PList l => "[" +:+ join ", " (map repr l) +:+ "]"
  end.

(** [Exception cls msg] stands for an instance [e] of a subclass [cls] of
    [Exception] with [str(e) = msg]; the other two derive from
    [BaseException] only. *)
Inductive exn :=
| KeyboardInterrupt
| SystemExit
| Exception (cls msg : string).

(** What a call into a library or into the outside world gives back. *)
Inductive reply (A : Type) :=
| Reply (a : A)
| Fails (e : exn).
Arguments Reply {A} a.
Arguments Fails {A} e.

(** What a method of the program does on a given fuel. *)
Inductive outcome (A : Type) :=
| Returned (a : A)
| Raised (e : exn)
| OutOfFuel.
Arguments Returned {A} a.
Arguments Raised {A} e.
Arguments OutOfFuel {A}.

(** ** The interfaces the program is written against *)

(** The attributes of [urlparse]'s result that the program reads. *)
Record ParseResult := mkParseResult {
  hostname : option string;
  path : string;
  query : string;
}.

Class Urllib := {
  urlparse : string -> reply ParseResult;
  parse_qs : string -> gmap string (list string);
}.

(** [colorama.Fore] *)
Class Colorama := {
  Fore_CYAN : string;
  Fore_GREEN : string;
  Fore_RED : string;
  Fore_YELLOW : string;
}.

(** One timed caption entry of the transcript service. *)
Record caption (T : Type) := mkCaption {
  text : string;
  start : T;
  duration : T;
}.
Arguments mkCaption {T} text start duration.
Arguments text {T} c.
Arguments start {T} c.
Arguments duration {T} c.

(** The outside world: each call may return or raise, and moves the world
    to a new state.  Errors and interrupts enter the program through
    these calls. *)
Class World (W : Type) := {
  Timing : Type;
  (** [input(prompt)] *)
  console_input : string -> W -> reply string * W;
  (** [YouTubeTranscriptApi.get_transcript(video_id, languages=...)] *)
  api_get_transcript :
    option string -> list string -> W -> reply (list (caption Timing)) * W;
  (** [punctuation_model.restore_punctuation(text)] *)
  model_restore_punctuation : string -> W -> reply string * W;
  (** [self.llm.invoke(prompt).content] *)
  llm_invoke_content : string -> W -> reply string * W;
}.

(** What the program writes or requests, in order. *)
Inductive event :=
| Printed (line : string)
| Input (prompt : string)
| SpinnerStart (text : string)
| SpinnerSucceed (text : string)
| GetTranscript (video_id : option string) (languages : list string)
| RestorePunctuation (text : string)
| LLMInvoke (prompt : string).

(** ** State and monad *)

Record state (W : Type) := mkState {
  _transcript : string;
  _chat_history : list (pyval * string);
  world : W;
  trace : list event;
}.
Arguments mkState {W} _ _ _ _.
Arguments _transcript {W} s.
Arguments _chat_history {W} s.
Arguments world {W} s.
Arguments trace {W} s.

Definition M (W A : Type) : Type := state W -> outcome A * state W.

Definition ret {W A} (a : A) : M W A := fun st => (Returned a, st).

Definition bind {W A B} (c : M W A) (k : A -> M W B) : M W B :=
  fun st =>
    match c st with
    | (Returned a, st') => k a st'
    | (Raised e, st') => (Raised e, st')
    | (OutOfFuel, st') => (OutOfFuel, st')
    end.

Notation "x <- c ;; k" := (bind c (fun x => k))
  (at level 20, c at level 99, k at level 200, only parsing).
Notation "c ;;; k" := (bind c (fun _ => k))
  (at level 100, k at level 200, right associativity, only parsing).

Definition raise {W A} (e : exn) : M W A := fun st => (Raised e, st).
Definition out_of_fuel {W A} : M W A := fun st => (OutOfFuel, st).

(** [try: body except ...]: [handler e] is the body of the first clause
    that matches [e], if any. *)
Definition try_except {W A} (body : M W A) (handler : exn -> option (M W A))
  : M W A :=
  fun st =>
    match body st with
    | (Raised e, st') =>
        match handler e with
        | Some h => h st'
        | None => (Raised e, st')
        end
    | r => r
    end.

Definition emit {W} (e : event) : M W unit :=
  fun st => (Returned tt,
             mkState (_transcript st) (_chat_history st) (world st)
                     (trace st ++ [e])).

(** A call into the world: the request is traced, the world moves on. *)
Definition call {W A} (e : event) (f : W -> reply A * W) : M W A :=
  fun st =>
    let '(r, w) := f (world st) in
    let st' := mkState (_transcript st) (_chat_history st) w (trace st ++ [e]) in
    match r with
    | Reply a => (Returned a, st')
    | Fails x => (Raised x, st')
    end.

Definition lift_reply {W A} (r : reply A) : M W A :=
  fun st => match r with Reply a => (Returned a, st) | Fails e => (Raised e, st) end.

(** [print(a, b, ...)]: the arguments separated by one space. *)
Definition print {W} (args : list string) : M W unit :=
  emit (Printed (join " " args)).

Definition input {W} `{World W} (prompt : string) : M W string :=
  call (Input prompt) (console_input prompt).

Definition get_self_transcript {W} : M W string :=
  fun st => (Returned (_transcript st), st).
Definition set_self_transcript {W} (t : string) : M W unit :=
  fun st => (Returned tt, mkState t (_chat_history st) (world st) (trace st)).
Definition get_self_chat_history {W} : M W (list (pyval * string)) :=
  fun st => (Returned (_chat_history st), st).
(** [self._chat_history.append(x)] *)
Definition chat_history_append {W} (x : pyval * string) : M W unit :=
  fun st => (Returned tt,
             mkState (_transcript st) (_chat_history st ++ [x]) (world st)
                     (trace st)).

Fixpoint for_each {W A} (l : list A) (body : A -> M W unit) : M W unit :=
  match l with
  | [] => ret tt
  | x :: r => body x ;;; for_each r body
  end.

(** ** class YouTubeTranscriptHandler *)

(** [extract_video_id] is a static method: it reads nothing but its
    argument, so it is a function into [reply]. *)
Definition extract_video_id `{Urllib} (url : string) : reply (option string) :=
  match urlparse url with
  | Fails e => Fails e
  | Reply parsed_url =>
      if decide (hostname parsed_url = Some "www.youtube.com") then
        (* [parse_qs(parsed_url.query).get('v', [None])[0]] *)
        let values : list (option string) :=
          match parse_qs (query parsed_url) !! "v" with
          | Some l => map Some l
          | None => [None]
          end in
        match values with
        | x :: _ => Reply x
        | [] => Fails (Exception "IndexError" "list index out of range")
        end
      else if decide (hostname parsed_url = Some "youtu.be") then
        Reply (Some (slice_from_1 (path parsed_url)))
      else Reply None
  end.

Definition get_transcript {W} `{World W} (video_id : option string) : M W string :=
  transcript <- call (GetTranscript video_id ["en"])
                     (api_get_transcript video_id ["en"]) ;;
  ret (join " " (map text transcript)).

(** The formatting pass of [add_punctuation]:
    [.replace('. ', '.\n').replace(', ', ',\n')]. *)
Definition line_breaks (punctuated_text : string) : string :=
  replace ", " ("," +:+ nl) (replace ". " ("." +:+ nl) punctuated_text).

Definition add_punctuation {W} `{World W} (text : string) : M W string :=
  punctuated_text <- call (RestorePunctuation text)
                          (model_restore_punctuation text) ;;
  ret (line_breaks punctuated_text).

(** ** class LLMHandler *)

Definition render_turn (turn : pyval * string) : string :=
  let '(q, a) := turn in "Q: " +:+ format_value q +:+ nl +:+ "A: " +:+ a.

Definition render_history (chat_history : list (pyval * string)) : string :=
  join nl (map render_turn chat_history).

Definition indent : string := "        ".

Definition prompt_head : string :=
  nl +:+
  indent +:+ "You are an expert answering based only on the provided video transcript." +:+ nl +:+
  indent +:+ "Transcript: " +:+ nl +:+
  nl +:+
  indent.

Definition prompt_before_history : string :=
  nl +:+
  nl +:+
  indent +:+ "Chat history:" +:+ nl +:+
  indent.

Definition prompt_before_question : string :=
  nl +:+
  nl +:+
  indent +:+ "Question: ".

Definition prompt_tail : string :=
  nl +:+
  nl +:+
  indent +:+ "Answer in detail using only the transcript and chat history." +:+ nl +:+
  indent +:+ "If a question is irrelevant to the video, answer with " +:+ dquote +:+
    "I'm sorry, I can't answer that question as it is not relevant to the video content." +:+
    dquote +:+ nl +:+
  indent +:+ "If the answer is absent in the video, respond with " +:+ dquote +:+
    "I'm sorry, I can't answer that question as the answer is not present in the video content." +:+
    dquote +:+ nl +:+
  indent.

Definition prepare_prompt (text : string) (question : pyval)
    (chat_history : list (pyval * string)) : string :=
  let history := render_history chat_history in
  prompt_head +:+ text +:+
  prompt_before_history +:+ history +:+
  prompt_before_question +:+ format_value question +:+
  prompt_tail.

Definition invoke {W} `{World W} (prompt : string) : M W string :=
  content <- call (LLMInvoke prompt) (llm_invoke_content prompt) ;;
  ret (strip content).

(** ** class VideoCLIApp *)

(** The bound methods stored in [_menu_options]. *)
Inductive method :=
| m_print_transcript
| m_ask_ai_single_question
| m_chat_with_ai_loop
| m_change_video
| m_exit_app.

(** Each value is [(description, action, *rest)]; the dict keeps its
    insertion order. *)
Definition _menu_options : list (string * (string * method * list string)) :=
  [ ("1", ("Print Punctuated Transcript", m_print_transcript, []));
    ("2", ("Summarize Transcript", m_ask_ai_single_question,
           ["provide a summary of the video content"]));
    ("3", ("Chat with AI Assistant", m_chat_with_ai_loop, []));
    ("4", ("FAQ", m_ask_ai_single_question,
           ["provide a 5 question FAQ based on the video content"]));
    ("5", ("Table of Contents", m_ask_ai_single_question,
           ["provide a table of contents based on the video content"]));
    ("6", ("Change Video", m_change_video, []));
    ("0", ("Exit", m_exit_app, [])) ].

Fixpoint dict_lookup {V} (key : string) (d : list (string * V)) : option V :=
  match d with
  | [] => None
  | (k, v) :: r => if String.eqb k key then Some v else dict_lookup key r
  end.

Definition method_name (m : method) : string :=
  match m with
  | m_print_transcript => "_print_transcript"
  | m_ask_ai_single_question => "_ask_ai_single_question"
  | m_chat_with_ai_loop => "_chat_with_ai_loop"
  | m_change_video => "_change_video"
  | m_exit_app => "_exit_app"
  end.

Section App.
Context {W : Type} `{World W} `{Urllib} `{Colorama}.

Definition _fetch_video_transcript (video_url : string) : M W string :=
  emit (SpinnerStart "Fetching transcript...") ;;;
  video_id <- lift_reply (extract_video_id video_url) ;;
  transcript <- get_transcript video_id ;;
  emit (SpinnerSucceed (Fore_GREEN +:+ "Transcript fetched.")) ;;;
  emit (SpinnerStart "Adding punctuation...") ;;;
  punctuated_transcript <- add_punctuation transcript ;;
  emit (SpinnerSucceed (Fore_GREEN +:+ "Punctuation added.")) ;;;
  ret punctuated_transcript.

Definition _chat_with_ai (transcript : string) (question : pyval) : M W string :=
  emit (SpinnerStart "Asking AI...") ;;;
  chat_history <- get_self_chat_history ;;
  let prompt := prepare_prompt transcript question chat_history in
  answer <- invoke prompt ;;
  emit (SpinnerSucceed (Fore_GREEN +:+ "AI Answer:")) ;;;
  chat_history_append (question, answer) ;;;
  ret answer.

Definition _ask_ai_single_question (question : pyval) : M W unit :=
  transcript <- get_self_transcript ;;
  answer <- _chat_with_ai transcript question ;;
  print [answer].

Definition _print_transcript : M W unit :=
  transcript <- get_self_transcript ;;
  print [Fore_GREEN +:+ nl +:+ "Punctuated Transcript:" +:+ nl; transcript].

Definition _change_video : M W unit :=
  url <- input (Fore_YELLOW +:+ "Please enter the YouTube video URL: ") ;;
  transcript <- _fetch_video_transcript url ;;
  set_self_transcript transcript.

Definition _exit_app : M W unit :=
  print [Fore_RED +:+ "Exiting..."] ;;;
  raise SystemExit.

(** The [while True] of [_chat_with_ai_loop]. *)
Fixpoint chat_while (fuel : nat) : M W unit :=
  match fuel with
  | O => out_of_fuel
  | S fuel' =>
      question <- input (Fore_YELLOW +:+
        "Enter your question (or type 'exit' or CTRL+C to go back): ") ;;
      if decide (lower question = "exit") then ret tt
      else
        transcript <- get_self_transcript ;;
        answer <- _chat_with_ai transcript (PStr question) ;;
        print [Fore_GREEN +:+ nl +:+ "Answer:" +:+ nl; answer] ;;;
        chat_while fuel'
  end.

Definition _chat_with_ai_loop (fuel : nat) : M W unit :=
  try_except (chat_while fuel)
    (fun e =>
       match e with
       | KeyboardInterrupt =>
           Some (print [Fore_RED +:+ nl +:+ "Chat interrupted. Returning to menu..."])
       | _ => None
       end).

(** [action()] and [action(question)] on a bound method: [arg] is the
    argument of the second form.  A call with the wrong number of
    arguments is a [TypeError]. *)
Definition call_method (fuel : nat) (action : method) (arg : option pyval)
  : M W unit :=
  match action, arg with
  | m_print_transcript, None => _print_transcript
  | m_chat_with_ai_loop, None => _chat_with_ai_loop fuel
  | m_change_video, None => _change_video
  | m_exit_app, None => _exit_app
  | m_ask_ai_single_question, Some question => _ask_ai_single_question question
  | m_ask_ai_single_question, None =>
      raise (Exception "TypeError"
        ("VideoCLIApp." +:+ method_name action
         +:+ "() missing 1 required positional argument: 'question'"))
  | _, Some _ =>
      raise (Exception "TypeError"
        ("VideoCLIApp." +:+ method_name action
         +:+ "() takes 1 positional argument but 2 were given"))
  end.

Definition print_menu : M W unit :=
  print [Fore_CYAN +:+ nl +:+ "Menu:"] ;;;
  for_each _menu_options
    (fun '(key, (description, _, _)) =>
       print [Fore_CYAN +:+ key +:+ ". " +:+ description]).

(** One pass through the body of the [while True] of [_menu_loop]; the
    chat sub-loop it may enter runs on [fuel]. *)
Definition menu_iteration (fuel : nat) : M W unit :=
  print_menu ;;;
  choice <- input (Fore_YELLOW +:+ "Choose an option: ") ;;
  match dict_lookup choice _menu_options with
  | Some (_, action, question) =>
      match question with
      | _ :: _ => call_method fuel action (Some (PList question))
      | [] => call_method fuel action None
      end
  | None => print [Fore_RED +:+ "Invalid choice. Please try again."]
  end.

Fixpoint _menu_loop (fuel : nat) : M W unit :=
  match fuel with
  | O => out_of_fuel
  | S fuel' => menu_iteration fuel' ;;; _menu_loop fuel'
  end.

Definition run (fuel : nat) (video_url : string) : M W unit :=
  try_except
    (transcript <- _fetch_video_transcript video_url ;;
     set_self_transcript transcript ;;;
     _menu_loop fuel)
    (fun e =>
       match e with
       | KeyboardInterrupt => Some (print [Fore_RED +:+ nl +:+ "Exiting..."])
       | Exception _ msg => Some (print [Fore_RED +:+ "Error: " +:+ msg])
       | SystemExit => None
       end).

End App.

(** [VideoCLIApp()]: empty history, empty transcript. *)
Definition new_app {W} (w : W) : state W := mkState "" [] w [].

(** The [__main__] block: the URL of the command line, or one asked for
    when it is absent or empty. *)
Definition main {W} `{World W} `{Urllib} `{Colorama}
    (fuel : nat) (args_url : option string) : M W unit :=
  video_url <-
    match args_url with
    | Some (String c u) => ret (String c u)
    | _ => input (Fore_YELLOW +:+ "Please enter the YouTube video URL: ")
    end ;;
  run fuel video_url.

(** ** Instances used to run the program on concrete inputs *)

(** A reference instance of [Urllib].  [urllib.parse] is not part of the
    repository; this instance follows what CPython's [urlsplit],
    [urlparse], the [hostname] property and [parse_qs] do on a [str] of
    the generic form [scheme://netloc/path;params?query#fragment].  Two
    parts of the library are outside it: hosts in brackets (every netloc
    with a bracket is answered with the [ValueError] that the library
    raises for the malformed ones) and percent-escapes of bytes above
    0x7F in [parse_qs] (left as they are).  The theorems about
    [extract_video_id] hold for every instance; this one evaluates the
    examples. *)
Module UrllibModel.

Fixpoint take_until (stop : ascii -> bool) (s : string) : string * string :=
  match s with
  | EmptyString => (EmptyString, EmptyString)
  | String c r =>
      if stop c then (EmptyString, s)
      else let '(a, b) := take_until stop r in (String c a, b)
  end.

(** [s.partition(c)]: before, whether [c] was found, after. *)
Definition partition (c : ascii) (s : string) : string * bool * string :=
  match take_until (Ascii.eqb c) s with
  | (a, String _ b) => (a, true, b)
  | (a, EmptyString) => (a, false, EmptyString)
  end.

(** The part after the last [c], the whole string when there is none:
    [s.rpartition(c)[2]]. *)
Fixpoint after_last (c : ascii) (s : string) : string :=
  match s with
  | EmptyString => EmptyString
  | String a r =>
      if contains (String c "") r then after_last c r
      else if Ascii.eqb a c then r else s
  end.

Fixpoint string_filter (p : ascii -> bool) (s : string) : string :=
  match s with
  | EmptyString => EmptyString
  | String c r => if p c then String c (string_filter p r) else string_filter p r
  end.

Fixpoint drop_while (p : ascii -> bool) (s : string) : string :=
  match s with
  | EmptyString => EmptyString
  | String c r => if p c then drop_while p r else s
  end.

Definition is_ascii_alpha (c : ascii) : bool :=
  let n := nat_of_ascii c in
  ((65 <=? n) && (n <=? 90)) || ((97 <=? n) && (n <=? 122)).

Definition is_digit (c : ascii) : bool :=
  let n := nat_of_ascii c in (48 <=? n) && (n <=? 57).

Definition is_scheme_char (c : ascii) : bool :=
  is_ascii_alpha c || is_digit c
  || Ascii.eqb c "+" || Ascii.eqb c "-" || Ascii.eqb c ".".

Definition uses_params : list string :=
  [""; "ftp"; "hdl"; "prospero"; "http"; "imap"; "https"; "shttp"; "rtsp";
   "rtspu"; "sip"; "sips"; "mms"; "sftp"; "tel"].

Record SplitResult := mkSplit {
  sr_scheme : string;
  sr_netloc : string;
  sr_path : string;
  sr_query : string;
  sr_fragment : string;
}.

(** Leading C0 controls and spaces are dropped, then tab, CR and LF
    wherever they are. *)
Definition remove_unsafe (url : string) : string :=
  string_filter
    (fun c => negb ((nat_of_ascii c =? 9) || (nat_of_ascii c =? 10)
                    || (nat_of_ascii c =? 13)))
    (drop_while (fun c => nat_of_ascii c <=? 32) url).

(** The scheme is what precedes the first colon, when that starts with an
    ASCII letter and has scheme characters only. *)
Definition split_scheme (url : string) : string * string :=
  match partition ":" url with
  | (String c0 pre, true, rest) =>
      if is_ascii_alpha c0 && string_forallb is_scheme_char (String c0 pre)
      then (lower (String c0 pre), rest)
      else (EmptyString, url)
  | _ => (EmptyString, url)
  end.

Definition is_netloc_delimiter (c : ascii) : bool :=
  Ascii.eqb c "/" || Ascii.eqb c "?" || Ascii.eqb c "#".

(** [_splitnetloc(url, 2)] after a leading double slash. *)
Definition split_netloc (url : string) : string * string :=
  if startswith "//" url
  then take_until is_netloc_delimiter (slice_from_1 (slice_from_1 url))
  else (EmptyString, url).

Definition urlsplit (url0 : string) : reply SplitResult :=
  let '(scheme, url1) := split_scheme (remove_unsafe url0) in
  let '(netloc, url2) := split_netloc url1 in
  if contains "[" netloc || contains "]" netloc
  then Fails (Exception "ValueError" "Invalid IPv6 URL")
  else
    let '(url3, _, fragment) := partition "#" url2 in
    let '(url4, _, query) := partition "?" url3 in
    Reply (mkSplit scheme netloc url4 query fragment).

(** [_splitparams]: the parameters of the last path segment. *)
Fixpoint last_segment_params (p : string) : string :=
  match p with
  | EmptyString => EmptyString
  | String c r =>
      if contains "/" r then String c (last_segment_params r)
      else String c (fst (fst (partition ";" r)))
  end.

Definition strip_params (scheme p : string) : string :=
  if bool_decide (scheme ∈ uses_params) && contains ";" p then
    if contains "/" p then last_segment_params p
    else fst (fst (partition ";" p))
  else p.

(** The [hostname] property: user information and port dropped, lower
    case (a zone after [%] kept as written), [None] when empty. *)
Definition hostname_of (netloc : string) : option string :=
  let hostinfo := after_last "@" netloc in
  let '(host, _, _) := partition ":" hostinfo in
  match host with
  | EmptyString => None
  | _ =>
      let '(h, percent, zone) := partition "%" host in
      Some (lower h +:+ (if percent then "%" else "") +:+ zone)
  end.

Definition urlparse_model (url : string) : reply ParseResult :=
  match urlsplit url with
  | Fails e => Fails e
  | Reply r =>
      Reply (mkParseResult (hostname_of (sr_netloc r))
                           (strip_params (sr_scheme r) (sr_path r))
                           (sr_query r))
  end.

Definition hex_value (c : ascii) : option nat :=
  let n := nat_of_ascii c in
  if is_digit c then Some (n - 48)
  else if (97 <=? n) && (n <=? 102) then Some (n - 87)
  else if (65 <=? n) && (n <=? 70) then Some (n - 55)
  else None.

(** [unquote] on escapes of ASCII characters; [skip] counts the hex digits
    of a decoded escape that are still to be passed over. *)
Fixpoint unquote_scan (skip : nat) (s : string) : string :=
  match s with
  | EmptyString => EmptyString
  | String c r =>
      match skip with
      | S k => unquote_scan k r
      | O =>
          let decoded : option ascii :=
            match r with
            | String a (String b _) =>
                if Ascii.eqb c "%" then
                  match hex_value a, hex_value b with
                  | Some x, Some y =>
                      if x <? 8 then Some (ascii_of_nat (16 * x + y)) else None
                  | _, _ => None
                  end
                else None
            | _ => None
            end in
          match decoded with
          | Some d => String d (unquote_scan 2 r)
          | None => String c (unquote_scan 0 r)
          end
      end
  end.

Definition unquote (s : string) : string := unquote_scan 0 s.

Definition plus_to_space (s : string) : string :=
  replace "+" " " s.

(** [parse_qsl] with its defaults: fields separated by [&], fields
    without [=] and fields with a blank value dropped. *)
Definition parse_qsl (qs : string) : list (string * string) :=
  match qs with
  | EmptyString => []
  | _ =>
      omap (fun name_value =>
              match partition "=" name_value with
              | (name, true, String v0 v) =>
                  Some (unquote (plus_to_space name),
                        unquote (plus_to_space (String v0 v)))
              | _ => None
              end)
           (split "&" qs)
  end.

Definition parse_qs_model (qs : string) : gmap string (list string) :=
  fold_left
    (fun parsed_result '(name, value) =>
       match parsed_result !! name with
       | Some l => <[name := l ++ [value]]> parsed_result
       | None => <[name := [value]]> parsed_result
       end)
    (parse_qsl qs) ∅.

End UrllibModel.

#[export] Instance reference_urllib : Urllib := {
  urlparse := UrllibModel.urlparse_model;
  parse_qs := UrllibModel.parse_qs_model;
}.

(** [colorama]'s escape sequences. *)
Definition ESC : string := String "027"%char "".

#[export] Instance ansi_colorama : Colorama := {
  Fore_CYAN := ESC +:+ "[36m";
  Fore_GREEN := ESC +:+ "[32m";
  Fore_RED := ESC +:+ "[31m";
  Fore_YELLOW := ESC +:+ "[33m";
}.

(** A scripted world: each service answers with the next entry of its
    own queue; an exhausted terminal raises [EOFError], an exhausted
    service a connection error. *)
Record script := mkScript {
  keyboard : list (reply string);
  caption_service : list (reply (list (caption nat)));
  punctuation_service : list (reply string);
  chat_service : list (reply string);
}.

Definition next {A} (on_empty : exn) (q : list (reply A)) : reply A * list (reply A) :=
  match q with
  | [] => (Fails on_empty, [])
  | r :: q' => (r, q')
  end.

Definition unreachable_service : exn := Exception "ConnectionError" "service unreachable".

#[export] Instance scripted_world : World script := {
  Timing := nat;
  console_input := fun _ w =>
    let '(r, q) := next (Exception "EOFError" "EOF when reading a line") (keyboard w) in
    (r, mkScript q (caption_service w) (punctuation_service w) (chat_service w));
  api_get_transcript := fun _ _ w =>
    let '(r, q) := next unreachable_service (caption_service w) in
    (r, mkScript (keyboard w) q (punctuation_service w) (chat_service w));
  model_restore_punctuation := fun _ w =>
    let '(r, q) := next unreachable_service (punctuation_service w) in
    (r, mkScript (keyboard w) (caption_service w) q (chat_service w));
  llm_invoke_content := fun _ w =>
    let '(r, q) := next unreachable_service (chat_service w) in
    (r, mkScript (keyboard w) (caption_service w) (punctuation_service w) q);
}.

(** ** Notions used to state the properties *)

(** [sub] occurs verbatim in [s]. *)
Definition occurs_in (sub s : string) : Prop :=
  exists l r, s = l +:+ sub +:+ r.

(** One replacement of the formatting pass, character by character: a
    space that follows [mark] becomes a line feed, everything else stays.
    [after_mark] tells whether the character before [s] is [mark]. *)
Fixpoint break_after (mark : ascii) (after_mark : bool) (s : string) : string :=
  match s with
  | EmptyString => EmptyString
  | String c r =>
      String (if after_mark && Ascii.eqb c " " then LF else c)
             (break_after mark (Ascii.eqb c mark) r)
  end.

(** The formatting pass as the specification words it: a line break at
    every space that follows a period or a comma, nothing else changed. *)
Definition is_mark (c : ascii) : bool := Ascii.eqb c "." || Ascii.eqb c ",".

Fixpoint break_after_marks (after_mark : bool) (s : string) : string :=
  match s with
  | EmptyString => EmptyString
  | String c r =>
      String (if after_mark && Ascii.eqb c " " then LF else c)
             (break_after_marks (is_mark c) r)
  end.

Definition line_breaks_spec (s : string) : string := break_after_marks false s.

Definition first_char (s : string) : option ascii :=
  match s with
  | EmptyString => None
  | String c _ => Some c
  end.

Fixpoint last_char (s : string) : option ascii :=
  match s with
  | EmptyString => None
  | String c EmptyString => Some c
  | String _ r => last_char r
  end.

(** The lines of a text. *)
Definition split_lines (s : string) : list string := split LF s.

(** History before and after one turn in the rendered history. *)
Definition lead (h : list (pyval * string)) : string :=
  match h with
  | [] => ""
  | _ => render_history h +:+ nl
  end.

Definition trail (h : list (pyval * string)) : string :=
  match h with
  | [] => ""
  | _ => nl +:+ render_history h
  end.

(** The eight lines that present the menu. *)
Definition menu_events `{Colorama} : list event :=
  Printed (Fore_CYAN +:+ nl +:+ "Menu:")
  :: map (fun '(key, (description, _, _)) =>
            Printed (Fore_CYAN +:+ key +:+ ". " +:+ description))
         _menu_options.

Definition is_print (e : event) : bool :=
  match e with Printed _ => true | _ => false end.

Definition is_llm_invoke (e : event) : bool :=
  match e with LLMInvoke _ => true | _ => false end.

(** State updates, to write the states the methods end in. *)
Definition traced {W} (st : state W) (w : W) (evs : list event) : state W :=
  mkState (_transcript st) (_chat_history st) w (trace st ++ evs).

(** The alphabet of video identifiers: letters, digits, hyphen and
    underscore. *)
Definition is_id_char (c : ascii) : bool :=
  let n := nat_of_ascii c in
  ((48 <=? n) && (n <=? 57)) || ((65 <=? n) && (n <=? 90))
  || ((97 <=? n) && (n <=? 122)) || (n =? 45) || (n =? 95).

Definition is_identifier (s : string) : Prop :=
  s <> "" /\ string_forallb is_id_char s = true.

(** The characters that [repr] writes as they are inside apostrophes:
    printable ASCII other than the apostrophe and the backslash. *)
Definition is_plain_char (c : ascii) : bool :=
  let n := nat_of_ascii c in
  (32 <=? n) && (n <=? 126) && negb (n =? 39) && negb (n =? 92).

Definition is_plain (s : string) : Prop :=
  string_forallb is_plain_char s = true.

(** The prompts of the three [input] calls. *)
Definition menu_prompt `{Colorama} : string :=
  Fore_YELLOW +:+ "Choose an option: ".
Definition chat_prompt `{Colorama} : string :=
  Fore_YELLOW +:+ "Enter your question (or type 'exit' or CTRL+C to go back): ".
Definition url_prompt `{Colorama} : string :=
  Fore_YELLOW +:+ "Please enter the YouTube video URL: ".

(** What a completed fetch writes and requests. *)
Definition fetch_events `{Colorama} (video_id : option string) (raw : string)
  : list event :=
  [ SpinnerStart "Fetching transcript...";
    GetTranscript video_id ["en"];
    SpinnerSucceed (Fore_GREEN +:+ "Transcript fetched.");
    SpinnerStart "Adding punctuation...";
    RestorePunctuation raw;
    SpinnerSucceed (Fore_GREEN +:+ "Punctuation added.") ].

(** What a completed assistant round-trip writes and requests. *)
Definition ask_events `{Colorama} (prompt : string) : list event :=
  [ SpinnerStart "Asking AI...";
    LLMInvoke prompt;
    SpinnerSucceed (Fore_GREEN +:+ "AI Answer:") ].

(** [c] keeps the relation [R] between the state it starts in and the
    state it ends in, however it ends. *)
Definition preserves {W A} (R : relation (state W)) (c : M W A) : Prop :=
  forall st, R st (snd (c st)).

(** The history of the later state extends the history of the earlier. *)
Definition history_extends {W} (st st' : state W) : Prop :=
  _chat_history st `prefix_of` _chat_history st'.

Definition history_grows {W A} (c : M W A) : Prop :=
  preserves history_extends c.

(** The requests to the assistant among some events. *)
Fixpoint count_invocations (evs : list event) : nat :=
  match evs with
  | [] => 0
  | LLMInvoke _ :: r => S (count_invocations r)
  | _ :: r => count_invocations r
  end.

(** Between the two states the history got new turns at its end, and no
    more of them than requests went to the assistant. *)
Definition turns_accounted {W} (st st' : state W) : Prop :=
  exists new evs,
    _chat_history st' = _chat_history st ++ new
    /\ trace st' = trace st ++ evs
    /\ length new <= count_invocations evs.

(** What a relation between states needs in order to be kept by every
    method: it is a preorder, it holds across a step that leaves the
    history alone and only adds to the trace, and it holds across a
    completed round-trip with the assistant. *)
Class SessionInvariant {W} `{Colorama} (R : relation (state W)) := {
  inv_preorder :: PreOrder R;
  inv_frame : forall st st',
    _chat_history st' = _chat_history st ->
    trace st `prefix_of` trace st' ->
    R st st';
  inv_turn : forall st st' q answer prompt,
    _chat_history st' = _chat_history st ++ [(q, answer)] ->
    trace st' = trace st ++ ask_events prompt ->
    R st st';
}.

(** The body of the [try] of [run]. *)
Definition run_body {W} `{World W} `{Urllib} `{Colorama}
    (fuel : nat) (video_url : string) : M W unit :=
  transcript <- _fetch_video_transcript video_url ;;
  set_self_transcript transcript ;;;
  _menu_loop fuel.

(** ** Example data *)

Definition example_captions : list (caption nat) :=
  [ mkCaption "hello world" 0 1500; mkCaption "how are you" 1500 1200 ].

Definition example_script : script :=
  mkScript [Reply "4"; Reply "0"]
           [Reply example_captions]
           [Reply "Hello world. How are you?"]
           [Reply "  1. What is said? A greeting.  "].



(** A session in the menu, with the transcript of the example. *)
Definition session_in_menu (keys : list (reply string))
    (answers : list (reply string)) : state script :=
  mkState ("Hello world." +:+ nl +:+ "How are you?") []
          (mkScript keys [] [] answers) [].

(** ** Notions for the further properties *)

(** The keys of [_menu_options], in the order of the dict. *)
Definition menu_keys : list string := map fst _menu_options.


(** Every answer kept in the history is free of whitespace at its ends. *)
Definition answers_trimmed {W} (st : state W) : Prop :=
  Forall (fun turn : pyval * string => strip (snd turn) = snd turn)
         (_chat_history st).

(** The session transcript has gone through the formatting pass: no
    period or comma is followed by a space. *)
Definition transcript_formatted {W} (st : state W) : Prop :=
  contains ". " (_transcript st) = false
  /\ contains ", " (_transcript st) = false.

(** What a relation between states needs in order to be kept by every
    method, when it may depend on the transcript and on what the answers
    are: it is a preorder; it holds across a step that leaves the two
    attributes alone, across the appending of a trimmed answer, and
    across the installing of a transcript that comes from the formatting
    pass. *)
Class MethodInvariant {W} (R : relation (state W)) := {
  mi_preorder :: PreOrder R;
  mi_frame : forall st st',
    _transcript st' = _transcript st ->
    _chat_history st' = _chat_history st ->
    R st st';
  mi_turn : forall st st' q content,
    _transcript st' = _transcript st ->
    _chat_history st' = _chat_history st ++ [(q, strip content)] ->
    R st st';
  mi_install : forall st st' p,
    _transcript st' = line_breaks p ->
    _chat_history st' = _chat_history st ->
    R st st';
}.

(** A terminal and a backend scripted for a conversation: the questions
    in order, then the keyword, then whatever else is typed; the replies
    in order, then whatever else the backend has. *)
Definition conversation (qa : list (string * string))
    (later_keys later_replies : list (reply string))
    (captions : list (reply (list (caption nat))))
    (punctuations : list (reply string)) : script :=
  mkScript (map (fun x => Reply (fst x)) qa ++ Reply "exit" :: later_keys)
           captions punctuations
           (map (fun x => Reply (snd x)) qa ++ later_replies).

(** The turns such a conversation leaves in the history. *)
Definition turns_of (qa : list (string * string)) : list (pyval * string) :=
  map (fun x => (PStr (fst x), strip (snd x))) qa.

(** Sessions for the examples of the further properties. *)
Definition fresh_session (keys : list (reply string)) : state script :=
  new_app (mkScript keys [Reply example_captions]
             [Reply "Hello world. How are you?"] []).

Definition session_with_history (keys answers : list (reply string))
  : state script :=
  mkState ("Hello world." +:+ nl +:+ "How are you?")
          [(PStr "what is said?", "A greeting.")]
          (mkScript keys [Reply example_captions]
             [Reply "Bye now, friends. See you."] answers) [].

(** * Properties *)

(** ** Strings *)

Lemma append_cons (x : ascii) (a b : string) :
  String x a +:+ b = String x (a +:+ b).
Proof. reflexivity. Qed.

Lemma append_nil_l (b : string) : "" +:+ b = b.
Proof. reflexivity. Qed.

(** [simpl] leaves [+:+] alone; these equations unfold it. *)
Ltac str_simpl :=
  repeat (progress (simpl; rewrite ?append_cons, ?append_nil_l)).

#[local] Arguments Ascii.eqb !a !b : simpl nomatch.

Section StringFacts.

Lemma append_assoc (a b c : string) : (a +:+ b) +:+ c = a +:+ (b +:+ c).
Proof.
  induction a as [|x a IH]; [reflexivity|].
  now rewrite !append_cons, IH.
Qed.

Lemma append_nil_r (s : string) : s +:+ "" = s.
Proof.
  induction s as [|x s IH]; [reflexivity|].
  now rewrite append_cons, IH.
Qed.

Lemma startswith_spec (p s : string) :
  startswith p s = true <-> exists r, s = p +:+ r.
Proof.
  revert s; induction p as [|a p IH]; intros s; simpl.
  - split; [intros _; now exists s | reflexivity].
  - destruct s as [|b s].
    + split; [discriminate | intros [r E]; discriminate].
    + destruct (Ascii.eqb_spec a b) as [->|Hab].
      * rewrite IH. split; intros [r E]; exists r;
          [now rewrite E | now injection E].
      * split; [discriminate | intros [r E]; injection E; congruence].
Qed.

Lemma contains_occurs (sub s : string) :
  contains sub s = true <-> occurs_in sub s.
Proof.
  split.
  - induction s as [|c s IH]; simpl; rewrite orb_true_iff; intros [Hp|Hc].
    + apply startswith_spec in Hp as [r ->]. now exists "", r.
    + discriminate.
    + apply startswith_spec in Hp as [r ->]. now exists "", r.
    + destruct (IH Hc) as (l & r & ->). now exists (String c l), r.
  - intros (l & r & ->). induction l as [|c l IH].
    + rewrite append_nil_l.
      assert (Hp : startswith sub (sub +:+ r) = true)
        by (apply startswith_spec; now exists r).
      destruct (sub +:+ r); simpl in *; rewrite Hp; reflexivity.
    + rewrite append_cons. simpl. rewrite IH. apply orb_true_r.
Qed.

Lemma occurs_in_mid (l sub r : string) : occurs_in sub (l +:+ sub +:+ r).
Proof. now exists l, r. Qed.

Lemma occurs_in_append_l (sub a b : string) :
  occurs_in sub b -> occurs_in sub (a +:+ b).
Proof. intros (l & r & ->). exists (a +:+ l), r. now rewrite append_assoc. Qed.

Lemma occurs_in_append_r (sub a b : string) :
  occurs_in sub a -> occurs_in sub (a +:+ b).
Proof. intros (l & r & ->). exists l, (r +:+ b). now rewrite !append_assoc. Qed.

(** *** [str.replace] on a mark followed by a space *)

Lemma break_after_no_space (mark : ascii) (s : string) :
  startswith " " s = false -> break_after mark true s = break_after mark false s.
Proof.
  destruct s as [|c r]; simpl; [reflexivity|].
  destruct (Ascii.eqb_spec " " c) as [<-|Hc]; [discriminate|].
  intros _. destruct (Ascii.eqb_spec c " "); [congruence | reflexivity].
Qed.

Lemma replace_scan_0 (old new : string) (c : ascii) (r : string) :
  replace_scan old new 0 (String c r) =
  if startswith old (String c r)
  then new +:+ replace_scan old new (String.length old - 1) r
  else String c (replace_scan old new 0 r).
Proof. reflexivity. Qed.

Lemma replace_scan_S (old new : string) (k : nat) (c : ascii) (r : string) :
  replace_scan old new (S k) (String c r) = replace_scan old new k r.
Proof. reflexivity. Qed.

Lemma replace_scan_break (mark : ascii) :
  mark <> " "%char ->
  forall n s, String.length s <= n ->
    replace_scan (String mark " ") (String mark nl) 0 s = break_after mark false s.
Proof.
  intros Hmark n. induction n as [|n IH]; intros [|c r] Hlen;
    try reflexivity; try (simpl in Hlen; lia).
  rewrite replace_scan_0.
  destruct (startswith (String mark " ") (String c r)) eqn:Hsw.
  - apply startswith_spec in Hsw as [t E].
    rewrite !append_cons, append_nil_l in E. injection E as -> ->.
    change (String.length (String mark " ") - 1) with 1.
    rewrite replace_scan_S. unfold nl. rewrite !append_cons, append_nil_l.
    simpl. rewrite Ascii.eqb_refl.
    destruct (Ascii.eqb_spec " " mark); [congruence|].
    do 2 f_equal. apply IH. simpl in Hlen. lia.
  - simpl break_after. f_equal.
    rewrite (IH r) by (simpl in Hlen; lia).
    destruct (Ascii.eqb_spec c mark) as [->|Hc]; [|reflexivity].
    symmetry. apply break_after_no_space.
    simpl in Hsw. rewrite Ascii.eqb_refl in Hsw. exact Hsw.
Qed.

Lemma replace_break (mark : ascii) (s : string) :
  mark <> " "%char ->
  replace (String mark " ") (String mark nl) s = break_after mark false s.
Proof.
  intros Hmark. apply (replace_scan_break mark Hmark (String.length s)); lia.
Qed.

Lemma break_after_compose (s : string) (p1 p2 : bool) :
  break_after "," p2 (break_after "." p1 s) = break_after_marks (p1 || p2) s.
Proof.
  revert p1 p2; induction s as [|c r IH]; intros p1 p2; simpl; [reflexivity|].
  destruct (Ascii.eqb_spec c " ") as [->|Hc].
  - destruct p1, p2; simpl; f_equal; apply IH.
  - rewrite !andb_false_r. destruct (Ascii.eqb_spec c " "); [congruence|].
    rewrite andb_false_r. f_equal. apply IH.
Qed.

(** The two replacements of [add_punctuation] together do what the
    character-by-character description says. *)
Lemma line_breaks_refines (s : string) : line_breaks s = line_breaks_spec s.
Proof.
  unfold line_breaks, line_breaks_spec, nl.
  rewrite !replace_break by discriminate.
  apply break_after_compose.
Qed.

Lemma break_after_marks_id (s : string) (p : bool) :
  (p = true -> startswith " " s = false) ->
  contains ". " s = false -> contains ", " s = false ->
  break_after_marks p s = s.
Proof.
  revert p; induction s as [|c r IH]; intros p Hp Hdot Hcomma; [reflexivity|].
  simpl in Hdot, Hcomma. apply orb_false_iff in Hdot as [Hd1 Hd2].
  apply orb_false_iff in Hcomma as [Hc1 Hc2].
  simpl. f_equal.
  - destruct p; [|reflexivity]. specialize (Hp eq_refl). simpl in Hp.
    destruct (Ascii.eqb_spec c " ") as [->|]; [discriminate | reflexivity].
  - apply IH; [|assumption..].
    unfold is_mark. intros [Hm|Hm]%orb_true_iff;
      apply Ascii.eqb_eq in Hm; subst c; simpl in Hd1, Hc1; assumption.
Qed.

Lemma break_after_marks_no_space (s : string) :
  startswith " " (break_after_marks true s) = false.
Proof.
  destruct s as [|c r]; [reflexivity|]. simpl.
  destruct (Ascii.eqb_spec c " ") as [->|Hc]; [reflexivity|].
  destruct (Ascii.eqb_spec " " c); [congruence | reflexivity].
Qed.

Lemma break_after_marks_clean (mark : ascii) (s : string) (p : bool) :
  is_mark mark = true ->
  contains (String mark " ") (break_after_marks p s) = false.
Proof.
  intros Hmark. revert p; induction s as [|c r IH]; intros p; [reflexivity|].
  cbn [break_after_marks contains]. rewrite IH, orb_false_r.
  cbn [startswith].
  destruct (Ascii.eqb_spec mark (if p && Ascii.eqb c " " then LF else c))
    as [E|]; [|reflexivity].
  assert (Hc : is_mark c = true).
  { destruct (p && Ascii.eqb c " "); [|congruence].
    subst mark. discriminate. }
  rewrite Hc. apply break_after_marks_no_space.
Qed.

Lemma line_breaks_clean (s : string) :
  contains ". " (line_breaks s) = false /\ contains ", " (line_breaks s) = false.
Proof.
  rewrite line_breaks_refines. unfold line_breaks_spec.
  split; apply break_after_marks_clean; reflexivity.
Qed.

Lemma line_breaks_id (s : string) :
  contains ". " s = false -> contains ", " s = false -> line_breaks s = s.
Proof.
  intros Hdot Hcomma. rewrite line_breaks_refines.
  apply break_after_marks_id; [discriminate | assumption..].
Qed.

Lemma break_after_marks_length (s : string) (p : bool) :
  String.length (break_after_marks p s) = String.length s.
Proof.
  revert p; induction s as [|c r IH]; intros p; simpl; [reflexivity|].
  now rewrite IH.
Qed.

(** Position by position: the character at [i] of the output is a line
    feed exactly where the input has a space at [i] after a period or a
    comma at [i - 1]; elsewhere it is the input's character. *)
Lemma break_after_marks_get (s : string) (p : bool) (i : nat) :
  String.get i (break_after_marks p s) =
  match String.get i s with
  | None => None
  | Some c =>
      let after_mark :=
        match i with
        | O => p
        | S j => match String.get j s with
                 | Some m => is_mark m
                 | None => false
                 end
        end in
      Some (if after_mark && Ascii.eqb c " " then LF else c)
  end.
Proof.
  revert p i; induction s as [|c r IH]; intros p i; [reflexivity|].
  destruct i as [|i]; [reflexivity|].
  cbn [break_after_marks String.get]. rewrite IH.
  destruct (String.get i r) as [d|] eqn:Hd; [|reflexivity].
  destruct i as [|i]; [reflexivity|].
  cbn [String.get]. reflexivity.
Qed.

(** *** [join] *)

Lemma join_cons (sep x : string) (l : list string) :
  join sep (x :: l) = match l with [] => x | _ => x +:+ sep +:+ join sep l end.
Proof. destruct l; reflexivity. Qed.

Lemma join_snoc (sep : string) (l : list string) (x : string) :
  join sep (l ++ [x]) = match l with [] => x | _ => join sep l +:+ sep +:+ x end.
Proof.
  induction l as [|a l IH]; [reflexivity|].
  change ((a :: l) ++ [x]) with (a :: (l ++ [x])).
  rewrite join_cons. destruct l as [|b l].
  - reflexivity.
  - change ((b :: l) ++ [x]) with (b :: (l ++ [x])) in *.
    rewrite IH. rewrite (join_cons sep a (b :: l)).
    now rewrite !append_assoc.
Qed.

Lemma join_middle (sep : string) (l1 l2 : list string) (x : string) :
  join sep (l1 ++ x :: l2) =
  (match l1 with [] => "" | _ => join sep l1 +:+ sep end) +:+ x +:+
  (match l2 with [] => "" | _ => sep +:+ join sep l2 end).
Proof.
  induction l1 as [|a l1 IH].
  - rewrite app_nil_l, join_cons, append_nil_l.
    destruct l2; [now rewrite append_nil_r | reflexivity].
  - change ((a :: l1) ++ x :: l2) with (a :: (l1 ++ x :: l2)).
    rewrite join_cons. destruct l1 as [|b l1].
    + rewrite app_nil_l in *. rewrite IH, append_nil_l.
      change (join sep [a]) with a. now rewrite !append_assoc.
    + change ((b :: l1) ++ x :: l2) with (b :: (l1 ++ x :: l2)) in *.
      rewrite IH. rewrite (join_cons sep a (b :: l1)).
      now rewrite !append_assoc.
Qed.

Lemma join_app (sep : string) (l1 l2 : list string) :
  l1 <> [] -> l2 <> [] ->
  join sep (l1 ++ l2) = join sep l1 +:+ sep +:+ join sep l2.
Proof.
  intros H1 H2. destruct l2 as [|x l2]; [contradiction|].
  rewrite join_middle. destruct l1 as [|a l1]; [contradiction|].
  rewrite (join_cons sep x l2). destruct l2 as [|y l2].
  - now rewrite append_nil_r, !append_assoc.
  - now rewrite !append_assoc.
Qed.

(** [join] is the standard library's [String.concat]. *)
Lemma join_concat (sep : string) (l : list string) :
  join sep l = String.concat sep l.
Proof.
  induction l as [|x l IH]; [reflexivity|].
  destruct l as [|y l]; [reflexivity|].
  change (join sep (x :: y :: l)) with (x +:+ sep +:+ join sep (y :: l)).
  now rewrite IH.
Qed.

(** The length of a joined text: the lengths of the parts, and one
    separator between each two. *)
Lemma join_length (sep : string) (l : list string) :
  String.length (join sep l) + String.length sep
  = match l with
    | [] => String.length sep
    | _ => list_sum (map (fun x => String.length x + String.length sep) l)
    end.
Proof.
  assert (Happ : forall a b, String.length (a +:+ b)
                             = String.length a + String.length b).
  { induction a as [|c a IHa]; intros b; [reflexivity|].
    rewrite append_cons. simpl. now rewrite IHa. }
  induction l as [|x l IH]; [reflexivity|].
  destruct l as [|y l].
  - simpl. lia.
  - change (join sep (x :: y :: l)) with (x +:+ sep +:+ join sep (y :: l)).
    rewrite !Happ. unfold list_sum in *. cbn [map fold_right] in *. lia.
Qed.

(** *** [repr] on plain strings *)

Lemma repr_char_plain (c : ascii) :
  is_plain_char c = true ->
  repr_char "'" c = String c "" /\ Ascii.eqb "'" c = false.
Proof.
  destruct c as [[] [] [] [] [] [] [] []]; vm_compute; intros Hc;
    first [discriminate Hc | split; reflexivity].
Qed.

Lemma repr_plain (s : string) : is_plain s -> repr s = "'" +:+ s +:+ "'".
Proof.
  unfold is_plain. intros Hs.
  assert (Hq : contains "'" s = false).
  { induction s as [|c s IH]; [reflexivity|]. simpl in *.
    apply andb_true_iff in Hs as [Hc Hs].
    destruct (repr_char_plain c Hc) as [_ Hne]. now rewrite Hne, IH. }
  assert (Hb : repr_body "'" s = s).
  { induction s as [|c s IH]; [reflexivity|]. simpl in Hs, Hq |- *.
    apply andb_true_iff in Hs as [Hc Hs].
    destruct (repr_char_plain c Hc) as [Hr Hne]. rewrite Hne in Hq.
    rewrite Hr, append_cons, append_nil_l, IH; [reflexivity | exact Hs | exact Hq]. }
  unfold repr. rewrite Hq. cbn [andb]. rewrite Hb. reflexivity.
Qed.

Lemma format_value_plain_list (l : list string) :
  Forall is_plain l ->
  format_value (PList l)
  = "[" +:+ join ", " (map (fun s => "'" +:+ s +:+ "'") l) +:+ "]".
Proof.
  intros Hl.
  assert (Hm : map repr l = map (fun s => "'" +:+ s +:+ "'") l).
  { induction Hl as [|x l Hx Hl IH]; [reflexivity|].
    cbn [map]. now rewrite (repr_plain x Hx), IH. }
  unfold format_value. now rewrite Hm.
Qed.

(** *** [strip] *)

Lemma lstrip_spec (s : string) :
  exists l, s = l +:+ lstrip s /\ string_forallb isspace l = true
            /\ forall c, first_char (lstrip s) = Some c -> isspace c = false.
Proof.
  induction s as [|c s (l & E & Hl & Hf)].
  - exists "". repeat split. discriminate.
  - simpl. destruct (isspace c) eqn:Hc.
    + exists (String c l). rewrite append_cons, <- E. simpl. rewrite Hc.
      repeat split; assumption.
    + exists "". repeat split. intros d [= <-]. assumption.
Qed.

Lemma rstrip_spec (s : string) :
  exists r, s = rstrip s +:+ r /\ string_forallb isspace r = true
            /\ (forall c, last_char (rstrip s) = Some c -> isspace c = false)
            /\ first_char (rstrip s) =
               match first_char s with
               | Some c => if isspace c && string_forallb isspace s
                           then None else Some c
               | None => None
               end
            /\ (rstrip s = "" -> string_forallb isspace s = true).
Proof.
  induction s as [|c s (r & E & Hr & Hlast & Hfirst & Hnil)].
  - exists "". repeat split. discriminate.
  - simpl. destruct (rstrip s) as [|d t] eqn:Hrs.
    + rewrite append_nil_l in E. subst r.
      rewrite (Hnil eq_refl), andb_true_r.
      destruct (isspace c) eqn:Hc.
      * exists (String c s). simpl. rewrite Hc.
        repeat split; [assumption | discriminate].
      * exists s. repeat split; try assumption; try discriminate.
        intros x [= <-]. assumption.
    + exists r. rewrite !append_cons in *. rewrite <- E.
      repeat split; try assumption; try discriminate.
      simpl first_char.
      destruct (isspace c) eqn:Hc; [|reflexivity]. simpl.
      destruct (string_forallb isspace s) eqn:Hall; [|reflexivity].
      exfalso. clear - E Hall Hlast.
      assert (Hsub : forall a b, string_forallb isspace (a +:+ b) = true ->
                                 string_forallb isspace a = true).
      { induction a as [|x a IHa]; intros b; [reflexivity|].
        rewrite append_cons. simpl. intros [Hx Hab]%andb_true_iff.
        rewrite Hx. simpl. eapply IHa, Hab. }
      rewrite E in Hall. apply (Hsub (String d t) r) in Hall.
      assert (Hl : forall u, u <> "" -> string_forallb isspace u = true ->
                             exists z, last_char u = Some z /\ isspace z = true).
      { induction u as [|x u IHu]; intros Hne Hu; [congruence|].
        simpl in Hu. apply andb_true_iff in Hu as [Hx Hu].
        destruct u as [|y u]; [now exists x|].
        destruct (IHu ltac:(discriminate) Hu) as (z & Hz & Hsz).
        exists z. split; [exact Hz | exact Hsz]. }
      destruct (Hl (String d t) ltac:(discriminate) Hall) as (z & Hz & Hsz).
      rewrite (Hlast z Hz) in Hsz. discriminate.
Qed.

(** [strip] removes a run of whitespace at each end and nothing else. *)
Lemma strip_spec (s : string) :
  exists l r,
    s = l +:+ strip s +:+ r
    /\ string_forallb isspace l = true
    /\ string_forallb isspace r = true
    /\ (forall c, first_char (strip s) = Some c -> isspace c = false)
    /\ (forall c, last_char (strip s) = Some c -> isspace c = false).
Proof.
  unfold strip.
  destruct (lstrip_spec s) as (l & El & Hl & Hfirst).
  destruct (rstrip_spec (lstrip s)) as (r & Er & Hr & Hlast & Hf & _).
  exists l, r. repeat split; try assumption.
  - now rewrite <- Er.
  - intros c Hc. rewrite Hf in Hc.
    destruct (first_char (lstrip s)) as [d|] eqn:Hd; [|discriminate].
    specialize (Hfirst d eq_refl). rewrite Hfirst in Hc. simpl in Hc.
    now injection Hc as <-.
Qed.

End StringFacts.

(** ** The reference instance of [Urllib] on identifiers *)

Section ReferenceUrllib.
Import UrllibModel.

Lemma string_forallb_impl (p q : ascii -> bool) (s : string) :
  (forall c, p c = true -> q c = true) ->
  string_forallb p s = true -> string_forallb q s = true.
Proof.
  intros Hpq. induction s as [|c s IH]; [reflexivity|]. simpl.
  intros [Hc Hs]%andb_true_iff. now rewrite (Hpq c Hc), IH.
Qed.

(** An identifier character is none of the characters the parsers look
    for. *)
Lemma is_id_char_plain (c : ascii) :
  is_id_char c = true ->
  negb ((nat_of_ascii c =? 9) || (nat_of_ascii c =? 10) || (nat_of_ascii c =? 13))
    = true
  /\ (Ascii.eqb c "/" || Ascii.eqb c "?" || Ascii.eqb c "#") = false
  /\ Ascii.eqb "#" c = false /\ Ascii.eqb "?" c = false
  /\ Ascii.eqb ";" c = false /\ Ascii.eqb "/" c = false
  /\ Ascii.eqb c "&" = false /\ Ascii.eqb "=" c = false
  /\ Ascii.eqb "+" c = false /\ Ascii.eqb c "%" = false.
Proof.
  destruct c as [[] [] [] [] [] [] [] []]; vm_compute; intros Hc;
    first [discriminate Hc | repeat split].
Qed.

Lemma take_until_none (stop : ascii -> bool) (s : string) :
  string_forallb (fun c => negb (stop c)) s = true ->
  take_until stop s = (s, "").
Proof.
  induction s as [|c s IH]; [reflexivity|]. simpl.
  intros [Hc Hs]%andb_true_iff. apply negb_true_iff in Hc.
  now rewrite Hc, IH.
Qed.

Lemma partition_none (x : ascii) (s : string) :
  string_forallb (fun c => negb (Ascii.eqb x c)) s = true ->
  partition x s = (s, false, "").
Proof. intros Hs. unfold partition. now rewrite take_until_none. Qed.

Lemma contains_char_none (x : ascii) (s : string) :
  string_forallb (fun c => negb (Ascii.eqb x c)) s = true ->
  contains (String x "") s = false.
Proof.
  induction s as [|c s IH]; [reflexivity|]. simpl.
  intros [Hc Hs]%andb_true_iff. apply negb_true_iff in Hc.
  now rewrite Hc, IH.
Qed.

Lemma string_filter_all (p : ascii -> bool) (s : string) :
  string_forallb p s = true -> string_filter p s = s.
Proof.
  induction s as [|c s IH]; [reflexivity|]. simpl.
  intros [Hc Hs]%andb_true_iff. now rewrite Hc, IH.
Qed.

Lemma split_none (x : ascii) (s : string) :
  string_forallb (fun c => negb (Ascii.eqb c x)) s = true ->
  split x s = [s].
Proof.
  induction s as [|c s IH]; [reflexivity|]. simpl.
  intros [Hc Hs]%andb_true_iff. apply negb_true_iff in Hc.
  now rewrite Hc, IH.
Qed.

Lemma plus_to_space_none (s : string) :
  string_forallb (fun c => negb (Ascii.eqb "+" c)) s = true ->
  plus_to_space s = s.
Proof.
  unfold plus_to_space, replace.
  induction s as [|c s IH]; [reflexivity|].
  simpl string_forallb. intros [Hc Hs]%andb_true_iff. apply negb_true_iff in Hc.
  rewrite replace_scan_0. cbn [startswith]. rewrite Hc. now rewrite IH.
Qed.

Lemma unquote_none (s : string) :
  string_forallb (fun c => negb (Ascii.eqb c "%")) s = true ->
  unquote s = s.
Proof.
  unfold unquote.
  induction s as [|c s IH]; [reflexivity|].
  simpl string_forallb. intros [Hc Hs]%andb_true_iff. apply negb_true_iff in Hc.
  cbn [unquote_scan]. rewrite Hc.
  destruct s as [|a [|b s']]; now rewrite IH.
Qed.

Lemma parse_qs_model_v (id : string) :
  is_identifier id ->
  parse_qs_model ("v=" +:+ id) !! "v" = Some [id].
Proof.
  intros [Hne Hid].
  assert (Hc : forall q, (forall c, is_id_char c = true -> q c = true) ->
                         string_forallb q id = true)
    by (intros q Hq; now apply (string_forallb_impl is_id_char)).
  unfold parse_qs_model, parse_qsl.
  rewrite !append_cons, append_nil_l.
  rewrite split_none.
  2:{ simpl. apply Hc. intros c Hcid.
      destruct (is_id_char_plain c Hcid) as (_ & _ & _ & _ & _ & _ & H7 & _).
      now rewrite H7. }
  cbn [omap list_omap]. unfold partition. cbn [take_until].
  change (Ascii.eqb "=" "v") with false. change (Ascii.eqb "=" "=") with true.
  cbn iota. destruct id as [|i0 id']; [contradiction|].
  rewrite (plus_to_space_none (String i0 id')), (unquote_none (String i0 id')).
  - change (unquote (plus_to_space "v")) with "v".
    cbn [fold_left]. rewrite lookup_empty. apply lookup_insert_eq.
  - apply Hc. intros c Hcid.
    destruct (is_id_char_plain c Hcid) as (_ & _ & _ & _ & _ & _ & _ & _ & _ & H10).
    now rewrite H10.
  - apply Hc. intros c Hcid.
    destruct (is_id_char_plain c Hcid) as (_ & _ & _ & _ & _ & _ & _ & _ & H9 & _).
    now rewrite H9.
Qed.

Lemma string_filter_app (p : ascii -> bool) (a b : string) :
  string_filter p (a +:+ b) = string_filter p a +:+ string_filter p b.
Proof.
  induction a as [|c a IH]; [reflexivity|].
  rewrite append_cons. simpl. destruct (p c); [|exact IH].
  now rewrite append_cons, IH.
Qed.

Lemma take_until_app (stop : ascii -> bool) (a : string) (c : ascii) (b : string) :
  string_forallb (fun x => negb (stop x)) a = true -> stop c = true ->
  take_until stop (a +:+ String c b) = (a, String c b).
Proof.
  intros Ha Hc. induction a as [|x a IH].
  - rewrite append_nil_l. simpl. now rewrite Hc.
  - rewrite append_cons. simpl in *. apply andb_true_iff in Ha as [Hx Ha].
    apply negb_true_iff in Hx. now rewrite Hx, (IH Ha).
Qed.

Lemma take_until_app_none (stop : ascii -> bool) (a b : string) :
  string_forallb (fun x => negb (stop x)) a = true ->
  string_forallb (fun x => negb (stop x)) b = true ->
  take_until stop (a +:+ b) = (a +:+ b, "").
Proof.
  intros Ha Hb. induction a as [|x a IH].
  - rewrite append_nil_l. now apply take_until_none.
  - rewrite !append_cons. simpl in *. apply andb_true_iff in Ha as [Hx Ha].
    apply negb_true_iff in Hx. now rewrite Hx, (IH Ha).
Qed.

Lemma partition_app (x : ascii) (a b : string) :
  string_forallb (fun c => negb (Ascii.eqb x c)) a = true ->
  partition x (a +:+ String x b) = (a, true, b).
Proof.
  intros Ha. unfold partition.
  rewrite take_until_app; [reflexivity | exact Ha | apply Ascii.eqb_refl].
Qed.

Lemma partition_app_none (x : ascii) (a b : string) :
  string_forallb (fun c => negb (Ascii.eqb x c)) a = true ->
  string_forallb (fun c => negb (Ascii.eqb x c)) b = true ->
  partition x (a +:+ b) = (a +:+ b, false, "").
Proof.
  intros Ha Hb. unfold partition. now rewrite take_until_app_none.
Qed.

Lemma contains_char_app_none (x : ascii) (a b : string) :
  string_forallb (fun c => negb (Ascii.eqb x c)) a = true ->
  string_forallb (fun c => negb (Ascii.eqb x c)) b = true ->
  contains (String x "") (a +:+ b) = false.
Proof.
  intros Ha Hb. induction a as [|c a IH].
  - rewrite append_nil_l. now apply contains_char_none.
  - rewrite append_cons. simpl in *. apply andb_true_iff in Ha as [Hc Ha].
    apply negb_true_iff in Hc. now rewrite Hc, (IH Ha).
Qed.

Section OnIdentifiers.
Variable id : string.
Hypothesis Hid : is_identifier id.

Lemma identifier_chars (q : ascii -> bool) :
  (forall c, is_id_char c = true -> q c = true) -> string_forallb q id = true.
Proof. intros Hq. destruct Hid as [_ H]. now apply (string_forallb_impl is_id_char). Qed.

Lemma remove_unsafe_id (lit : string) :
  remove_unsafe lit = lit -> remove_unsafe (lit +:+ id) = lit +:+ id.
Proof.
  unfold remove_unsafe. destruct lit as [|c lit].
  - intros _. rewrite append_nil_l. destruct Hid as [Hne Hall].
    destruct id as [|i0 id']; [contradiction|].
    assert (H0 : is_id_char i0 = true)
      by (simpl in Hall; now apply andb_true_iff in Hall as [? _]).
    assert (Hd : (nat_of_ascii i0 <=? 32) = false).
    { revert H0. clear. destruct i0 as [[] [] [] [] [] [] [] []]; vm_compute;
        intros H0; first [discriminate H0 | reflexivity]. }
    cbn [drop_while]. rewrite Hd. apply string_filter_all.
    apply (string_forallb_impl is_id_char); [|exact Hall].
    intros x Hx. now destruct (is_id_char_plain x Hx) as (H1 & _).
  - rewrite append_cons. cbn [drop_while].
    destruct (nat_of_ascii c <=? 32) eqn:Hc.
    + intros Hlit. exfalso.
      assert (Hlen : forall p s, String.length (string_filter p s) <= String.length s).
      { intros p s. induction s as [|x s IH]; simpl; [lia|].
        destruct (p x); simpl; lia. }
      assert (Hlen2 : forall p s, String.length (drop_while p s) <= String.length s).
      { intros p s. induction s as [|x s IH]; simpl; [lia|].
        destruct (p x); simpl; lia. }
      apply (f_equal String.length) in Hlit.
      pose proof (Hlen (fun c0 => negb ((nat_of_ascii c0 =? 9)
                                        || (nat_of_ascii c0 =? 10)
                                        || (nat_of_ascii c0 =? 13)))
                       (drop_while (fun c0 => nat_of_ascii c0 <=? 32) lit)).
      pose proof (Hlen2 (fun c0 => nat_of_ascii c0 <=? 32) lit).
      simpl in Hlit. lia.
    + intros Hlit. rewrite <- append_cons, string_filter_app, Hlit.
      f_equal. apply string_filter_all, identifier_chars.
      intros x Hx. now destruct (is_id_char_plain x Hx) as (H1 & _).
Qed.

Lemma urlsplit_watch :
  urlsplit ("https://www.youtube.com/watch?v=" +:+ id)
  = Reply (mkSplit "https" "www.youtube.com" "/watch" ("v=" +:+ id) "").
Proof.
  unfold urlsplit.
  rewrite remove_unsafe_id by reflexivity.
  assert (Hs : split_scheme ("https://www.youtube.com/watch?v=" +:+ id)
               = ("https", "//www.youtube.com/watch?v=" +:+ id)).
  { unfold split_scheme.
    change ("https://www.youtube.com/watch?v=" +:+ id)
      with ("https" +:+ String ":" ("//www.youtube.com/watch?v=" +:+ id)).
    rewrite partition_app by reflexivity. reflexivity. }
  rewrite Hs.
  assert (Hn : split_netloc ("//www.youtube.com/watch?v=" +:+ id)
               = ("www.youtube.com", "/watch?v=" +:+ id)).
  { unfold split_netloc.
    change (startswith "//" ("//www.youtube.com/watch?v=" +:+ id)) with true.
    change (slice_from_1 (slice_from_1 ("//www.youtube.com/watch?v=" +:+ id)))
      with ("www.youtube.com" +:+ String "/" ("watch?v=" +:+ id)).
    rewrite take_until_app by reflexivity. reflexivity. }
  rewrite Hn.
  change (contains "[" "www.youtube.com" || contains "]" "www.youtube.com")
    with false. cbv iota.
  rewrite (partition_app_none "#" "/watch?v=" id).
  2: reflexivity.
  2:{ apply identifier_chars. intros c Hc.
      destruct (is_id_char_plain c Hc) as (_ & _ & H3 & _). now rewrite H3. }
  change ("/watch?v=" +:+ id) with ("/watch" +:+ String "?" ("v=" +:+ id)).
  rewrite partition_app by reflexivity. reflexivity.
Qed.

Lemma urlsplit_short :
  urlsplit ("https://youtu.be/" +:+ id)
  = Reply (mkSplit "https" "youtu.be" ("/" +:+ id) "" "").
Proof.
  unfold urlsplit.
  rewrite remove_unsafe_id by reflexivity.
  assert (Hs : split_scheme ("https://youtu.be/" +:+ id)
               = ("https", "//youtu.be/" +:+ id)).
  { unfold split_scheme.
    change ("https://youtu.be/" +:+ id)
      with ("https" +:+ String ":" ("//youtu.be/" +:+ id)).
    rewrite partition_app by reflexivity. reflexivity. }
  rewrite Hs.
  assert (Hn : split_netloc ("//youtu.be/" +:+ id) = ("youtu.be", "/" +:+ id)).
  { unfold split_netloc.
    change (startswith "//" ("//youtu.be/" +:+ id)) with true.
    change (slice_from_1 (slice_from_1 ("//youtu.be/" +:+ id)))
      with ("youtu.be" +:+ String "/" id).
    rewrite take_until_app by reflexivity. reflexivity. }
  rewrite Hn.
  change (contains "[" "youtu.be" || contains "]" "youtu.be") with false.
  cbv iota.
  rewrite (partition_app_none "#" "/" id).
  2: reflexivity.
  2:{ apply identifier_chars. intros c Hc.
      destruct (is_id_char_plain c Hc) as (_ & _ & H3 & _). now rewrite H3. }
  rewrite (partition_app_none "?" "/" id).
  2: reflexivity.
  2:{ apply identifier_chars. intros c Hc.
      destruct (is_id_char_plain c Hc) as (_ & _ & _ & H4 & _). now rewrite H4. }
  reflexivity.
Qed.

Lemma urlparse_model_watch :
  urlparse_model ("https://www.youtube.com/watch?v=" +:+ id)
  = Reply (mkParseResult (Some "www.youtube.com") "/watch" ("v=" +:+ id)).
Proof. unfold urlparse_model. rewrite urlsplit_watch. reflexivity. Qed.

Lemma urlparse_model_short :
  urlparse_model ("https://youtu.be/" +:+ id)
  = Reply (mkParseResult (Some "youtu.be") ("/" +:+ id) "").
Proof.
  unfold urlparse_model. rewrite urlsplit_short.
  cbn [sr_netloc sr_scheme sr_path sr_query].
  change (hostname_of "youtu.be") with (Some "youtu.be").
  unfold strip_params.
  rewrite (contains_char_app_none ";" "/" id), andb_false_r; [reflexivity..|].
  apply identifier_chars. intros c Hc.
  destruct (is_id_char_plain c Hc) as (_ & _ & _ & _ & H5 & _). now rewrite H5.
Qed.

End OnIdentifiers.

(** On the two URL forms of the specification, for every identifier. *)
Lemma reference_extract_video_id (id : string) :
  is_identifier id ->
  @extract_video_id reference_urllib ("https://www.youtube.com/watch?v=" +:+ id)
    = Reply (Some id)
  /\ @extract_video_id reference_urllib ("https://youtu.be/" +:+ id)
     = Reply (Some id).
Proof.
  intros Hid. unfold extract_video_id. cbn [urlparse parse_qs reference_urllib].
  rewrite (urlparse_model_watch id Hid), (urlparse_model_short id Hid).
  cbn [hostname path query]. split.
  - rewrite decide_True by reflexivity.
    now rewrite (parse_qs_model_v id Hid).
  - rewrite decide_False by discriminate.
    rewrite decide_True by reflexivity. reflexivity.
Qed.

End ReferenceUrllib.

(** ** The monad and the calls into the world *)

Section MonadFacts.
Context {W : Type} `{World W}.

Lemma bind_returned {A B} (c : M W A) (k : A -> M W B) st a st' :
  c st = (Returned a, st') -> bind c k st = k a st'.
Proof. unfold bind. now intros ->. Qed.

Lemma bind_raised {A B} (c : M W A) (k : A -> M W B) st e st' :
  c st = (Raised e, st') -> bind c k st = (Raised e, st').
Proof. unfold bind. now intros ->. Qed.

Lemma bind_out_of_fuel {A B} (c : M W A) (k : A -> M W B) st st' :
  c st = (OutOfFuel, st') -> bind c k st = (OutOfFuel, st').
Proof. unfold bind. now intros ->. Qed.

Lemma emit_eq (e : event) (st : state W) :
  emit e st = (Returned tt, traced st (world st) [e]).
Proof. reflexivity. Qed.

Lemma print_eq (args : list string) (st : state W) :
  print args st = (Returned tt, traced st (world st) [Printed (join " " args)]).
Proof. reflexivity. Qed.

Lemma call_reply {A} (e : event) (f : W -> reply A * W) st a w :
  f (world st) = (Reply a, w) -> call e f st = (Returned a, traced st w [e]).
Proof. unfold call. now intros ->. Qed.

Lemma call_fails {A} (e : event) (f : W -> reply A * W) st x w :
  f (world st) = (Fails x, w) -> call e f st = (Raised x, traced st w [e]).
Proof. unfold call. now intros ->. Qed.

Lemma input_reply (prompt : string) st s w :
  console_input prompt (world st) = (Reply s, w) ->
  input prompt st = (Returned s, traced st w [Input prompt]).
Proof. apply call_reply. Qed.

Lemma input_fails (prompt : string) st x w :
  console_input prompt (world st) = (Fails x, w) ->
  input prompt st = (Raised x, traced st w [Input prompt]).
Proof. apply call_fails. Qed.

Lemma traced_traced (st : state W) w1 w2 evs1 evs2 :
  traced (traced st w1 evs1) w2 evs2 = traced st w2 (evs1 ++ evs2).
Proof. unfold traced. simpl. now rewrite <- app_assoc. Qed.

Lemma for_each_emits {A} (l : list A) (body : A -> M W unit) (g : A -> event) :
  (forall x st, body x st = (Returned tt, traced st (world st) [g x])) ->
  forall st, for_each l body st = (Returned tt, traced st (world st) (map g l)).
Proof.
  intros Hbody. induction l as [|x l IH]; intros st.
  - unfold traced. simpl. rewrite app_nil_r. now destruct st.
  - simpl. erewrite bind_returned by apply Hbody.
    rewrite IH, traced_traced. reflexivity.
Qed.

End MonadFacts.

(** ** What each method does, given what the world answers *)

Ltac unfold_m :=
  unfold bind, ret, emit, call, raise, lift_reply, print, input,
    get_self_transcript, set_self_transcript, get_self_chat_history,
    chat_history_append, traced;
  cbn [_transcript _chat_history world trace fst snd].

Ltac red_m := cbn [_transcript _chat_history world trace fst snd].

Section AppFacts.
Context {W : Type} `{World W} `{Urllib} `{Colorama}.

Lemma get_transcript_reply st vid es w :
  api_get_transcript vid ["en"] (world st) = (Reply es, w) ->
  get_transcript vid st
  = (Returned (join " " (map text es)), traced st w [GetTranscript vid ["en"]]).
Proof.
  intros E. unfold get_transcript.
  erewrite bind_returned by (apply call_reply; exact E). reflexivity.
Qed.

Lemma add_punctuation_reply st raw p w :
  model_restore_punctuation raw (world st) = (Reply p, w) ->
  add_punctuation raw st
  = (Returned (line_breaks p), traced st w [RestorePunctuation raw]).
Proof.
  intros E. unfold add_punctuation.
  erewrite bind_returned by (apply call_reply; exact E). reflexivity.
Qed.

Lemma invoke_reply st prompt content w :
  llm_invoke_content prompt (world st) = (Reply content, w) ->
  invoke prompt st = (Returned (strip content), traced st w [LLMInvoke prompt]).
Proof.
  intros E. unfold invoke.
  erewrite bind_returned by (apply call_reply; exact E). reflexivity.
Qed.

Lemma invoke_fails st prompt e w :
  llm_invoke_content prompt (world st) = (Fails e, w) ->
  invoke prompt st = (Raised e, traced st w [LLMInvoke prompt]).
Proof.
  intros E. unfold invoke.
  erewrite bind_raised by (apply call_fails; exact E). reflexivity.
Qed.

Lemma fetch_returns st url vid es w1 p w2 :
  extract_video_id url = Reply vid ->
  api_get_transcript vid ["en"] (world st) = (Reply es, w1) ->
  model_restore_punctuation (join " " (map text es)) w1 = (Reply p, w2) ->
  _fetch_video_transcript url st
  = (Returned (line_breaks p),
     traced st w2 (fetch_events vid (join " " (map text es)))).
Proof.
  intros Hid Hapi Hmodel.
  unfold _fetch_video_transcript, get_transcript, add_punctuation. unfold_m.
  rewrite Hid. red_m. rewrite Hapi. red_m. rewrite Hmodel. red_m.
  unfold fetch_events. rewrite <- !app_assoc. reflexivity.
Qed.

Lemma fetch_inversion st url t st1 :
  _fetch_video_transcript url st = (Returned t, st1) ->
  exists vid es w1 p w2,
    extract_video_id url = Reply vid
    /\ api_get_transcript vid ["en"] (world st) = (Reply es, w1)
    /\ model_restore_punctuation (join " " (map text es)) w1 = (Reply p, w2)
    /\ t = line_breaks p
    /\ st1 = traced st w2 (fetch_events vid (join " " (map text es))).
Proof.
  unfold _fetch_video_transcript, get_transcript, add_punctuation. unfold_m.
  destruct (extract_video_id url) as [vid|x] eqn:Hid; [|discriminate].
  red_m.
  destruct (api_get_transcript vid ["en"] (world st)) as [[es|x] w1] eqn:Hapi;
    [|discriminate].
  red_m.
  destruct (model_restore_punctuation (join " " (map text es)) w1)
    as [[p|x] w2] eqn:Hmodel; [|discriminate].
  intros [= <- <-]. exists vid, es, w1, p, w2.
  repeat split; try assumption.
  unfold fetch_events. rewrite <- !app_assoc. reflexivity.
Qed.

(** Whatever happens, a fetch leaves the two attributes alone and writes
    no line and asks for no input. *)
Lemma fetch_quiet st url :
  exists evs,
    snd (_fetch_video_transcript url st)
    = traced st (world (snd (_fetch_video_transcript url st))) evs
    /\ Forall (fun e => is_print e = false) evs.
Proof.
  unfold _fetch_video_transcript, get_transcript, add_punctuation. unfold_m.
  destruct (extract_video_id url) as [vid|x].
  2:{ eexists; split; [reflexivity|]. repeat constructor. }
  red_m.
  destruct (api_get_transcript vid ["en"] (world st)) as [[es|x] w1].
  2:{ eexists; split; [cbn; rewrite <- !app_assoc; reflexivity|].
      repeat constructor. }
  red_m.
  destruct (model_restore_punctuation (join " " (map text es)) w1) as [[p|x] w2].
  - eexists; split; [cbn; rewrite <- !app_assoc; reflexivity|].
    repeat constructor.
  - eexists; split; [cbn; rewrite <- !app_assoc; reflexivity|].
    repeat constructor.
Qed.

Lemma chat_with_ai_reply st t q content w :
  llm_invoke_content (prepare_prompt t q (_chat_history st)) (world st)
    = (Reply content, w) ->
  _chat_with_ai t q st
  = (Returned (strip content),
     mkState (_transcript st) (_chat_history st ++ [(q, strip content)]) w
             (trace st ++ ask_events (prepare_prompt t q (_chat_history st)))).
Proof.
  intros E. unfold _chat_with_ai, invoke. unfold_m. rewrite E. red_m.
  unfold ask_events. rewrite <- !app_assoc. reflexivity.
Qed.

Lemma chat_with_ai_fails st t q e w :
  llm_invoke_content (prepare_prompt t q (_chat_history st)) (world st)
    = (Fails e, w) ->
  _chat_with_ai t q st
  = (Raised e,
     traced st w [SpinnerStart "Asking AI...";
                  LLMInvoke (prepare_prompt t q (_chat_history st))]).
Proof.
  intros E. unfold _chat_with_ai, invoke. unfold_m. rewrite E. red_m.
  rewrite <- !app_assoc. reflexivity.
Qed.

(** The three ways a round-trip can end. *)
Lemma chat_with_ai_inversion st t q r st' :
  _chat_with_ai t q st = (r, st') ->
  match r with
  | Returned answer => _chat_history st' = _chat_history st ++ [(q, answer)]
  | _ => _chat_history st' = _chat_history st
  end.
Proof.
  unfold _chat_with_ai, invoke. unfold_m.
  destruct (llm_invoke_content _ (world st)) as [[content|x] w];
    intros [= <- <-]; reflexivity.
Qed.

Lemma ask_ai_single_question_reply st q content w :
  llm_invoke_content (prepare_prompt (_transcript st) q (_chat_history st))
    (world st) = (Reply content, w) ->
  _ask_ai_single_question q st
  = (Returned tt,
     mkState (_transcript st) (_chat_history st ++ [(q, strip content)]) w
       (trace st
        ++ ask_events (prepare_prompt (_transcript st) q (_chat_history st))
        ++ [Printed (strip content)])).
Proof.
  intros E. unfold _ask_ai_single_question.
  unfold bind at 1. unfold get_self_transcript.
  erewrite bind_returned by (apply chat_with_ai_reply; exact E).
  rewrite print_eq. unfold traced. cbn [_transcript _chat_history world trace join].
  rewrite <- !app_assoc. reflexivity.
Qed.

Lemma ask_ai_single_question_fails st q e w :
  llm_invoke_content (prepare_prompt (_transcript st) q (_chat_history st))
    (world st) = (Fails e, w) ->
  _ask_ai_single_question q st
  = (Raised e,
     traced st w
       [SpinnerStart "Asking AI...";
        LLMInvoke (prepare_prompt (_transcript st) q (_chat_history st))]).
Proof.
  intros E. unfold _ask_ai_single_question.
  unfold bind at 1. unfold get_self_transcript.
  erewrite bind_raised by (apply chat_with_ai_fails; exact E). reflexivity.
Qed.

Lemma print_transcript_eq (st : state W) :
  _print_transcript st
  = (Returned tt,
     traced st (world st)
       [Printed (Fore_GREEN +:+ nl +:+ "Punctuated Transcript:" +:+ nl
               +:+ " " +:+ _transcript st)]).
Proof.
  unfold _print_transcript. unfold_m. cbn [join].
  rewrite !append_assoc. reflexivity.
Qed.

Lemma print_menu_eq (st : state W) :
  print_menu st = (Returned tt, traced st (world st) menu_events).
Proof.
  unfold print_menu. erewrite bind_returned by apply print_eq.
  erewrite for_each_emits with
    (g := fun '(key, (description, _, _)) =>
            Printed (Fore_CYAN +:+ key +:+ ". " +:+ description)).
  - rewrite traced_traced. reflexivity.
  - intros [key [[description action] rest]] st'. apply print_eq.
Qed.

(** *** The menu *)

Lemma menu_iteration_choice fuel st choice w :
  console_input menu_prompt (world st) = (Reply choice, w) ->
  menu_iteration fuel st
  = match dict_lookup choice _menu_options with
    | Some (_, action, question) =>
        match question with
        | _ :: _ => call_method fuel action (Some (PList question))
        | [] => call_method fuel action None
        end
    | None => print [Fore_RED +:+ "Invalid choice. Please try again."]
    end (traced st w (menu_events ++ [Input menu_prompt])).
Proof.
  intros E. unfold menu_iteration.
  erewrite bind_returned by apply print_menu_eq.
  erewrite bind_returned.
  2:{ apply input_reply. exact E. }
  rewrite traced_traced. reflexivity.
Qed.


(** A canned question goes to [_ask_ai_single_question] inside a list. *)
Lemma menu_iteration_canned fuel st key description canned w :
  dict_lookup key _menu_options
    = Some (description, m_ask_ai_single_question, [canned]) ->
  console_input menu_prompt (world st) = (Reply key, w) ->
  menu_iteration fuel st
  = _ask_ai_single_question (PList [canned])
      (traced st w (menu_events ++ [Input menu_prompt])).
Proof.
  intros Hkey E. rewrite (menu_iteration_choice fuel st key w E), Hkey.
  reflexivity.
Qed.

Lemma menu_loop_step fuel st st' :
  menu_iteration fuel st = (Returned tt, st') ->
  _menu_loop (S fuel) st = _menu_loop fuel st'.
Proof. intros E. simpl. now erewrite bind_returned by exact E. Qed.

Lemma menu_loop_raised fuel st e st' :
  menu_iteration fuel st = (Raised e, st') ->
  _menu_loop (S fuel) st = (Raised e, st').
Proof. intros E. simpl. now erewrite bind_raised by exact E. Qed.

(** *** The chat sub-loop *)

Lemma chat_while_exit fuel st question w :
  console_input chat_prompt (world st) = (Reply question, w) ->
  lower question = "exit" ->
  chat_while (S fuel) st = (Returned tt, traced st w [Input chat_prompt]).
Proof.
  intros E Hexit. simpl.
  erewrite bind_returned.
  2:{ apply input_reply. exact E. }
  destruct (decide (lower question = "exit")); [reflexivity | contradiction].
Qed.

Lemma chat_while_input_fails fuel st e w :
  console_input chat_prompt (world st) = (Fails e, w) ->
  chat_while (S fuel) st = (Raised e, traced st w [Input chat_prompt]).
Proof.
  intros E. simpl. erewrite bind_raised; [reflexivity|].
  apply input_fails. exact E.
Qed.

Lemma chat_while_ask fuel st question w1 content w2 :
  console_input chat_prompt (world st) = (Reply question, w1) ->
  lower question <> "exit" ->
  llm_invoke_content
    (prepare_prompt (_transcript st) (PStr question) (_chat_history st)) w1
    = (Reply content, w2) ->
  chat_while (S fuel) st
  = chat_while fuel
      (mkState (_transcript st)
         (_chat_history st ++ [(PStr question, strip content)]) w2
         (trace st ++ [Input chat_prompt]
          ++ ask_events (prepare_prompt (_transcript st) (PStr question)
                           (_chat_history st))
          ++ [Printed (Fore_GREEN +:+ nl +:+ "Answer:" +:+ nl +:+ " "
                     +:+ strip content)])).
Proof.
  intros E Hq Hllm. cbn [chat_while].
  erewrite bind_returned.
  2:{ apply input_reply. exact E. }
  destruct (decide (lower question = "exit")); [contradiction|].
  unfold bind at 1. unfold get_self_transcript.
  erewrite bind_returned.
  2:{ apply chat_with_ai_reply. exact Hllm. }
  erewrite bind_returned by apply print_eq.
  f_equal. unfold traced. red_m. cbn [join].
  rewrite <- !app_assoc, !append_assoc. reflexivity.
Qed.

Lemma chat_while_ask_fails fuel st question w1 e w2 :
  console_input chat_prompt (world st) = (Reply question, w1) ->
  lower question <> "exit" ->
  llm_invoke_content
    (prepare_prompt (_transcript st) (PStr question) (_chat_history st)) w1
    = (Fails e, w2) ->
  chat_while (S fuel) st
  = (Raised e,
     traced st w2
       [Input chat_prompt; SpinnerStart "Asking AI...";
        LLMInvoke (prepare_prompt (_transcript st) (PStr question)
                     (_chat_history st))]).
Proof.
  intros E Hq Hllm. cbn [chat_while].
  erewrite bind_returned.
  2:{ apply input_reply. exact E. }
  destruct (decide (lower question = "exit")); [contradiction|].
  unfold bind at 1. unfold get_self_transcript.
  erewrite bind_raised.
  2:{ apply chat_with_ai_fails. exact Hllm. }
  rewrite traced_traced. reflexivity.
Qed.

(** The handler of the sub-loop: an interrupt becomes a return, anything
    else passes through. *)
Lemma chat_with_ai_loop_eq fuel st :
  _chat_with_ai_loop fuel st
  = match chat_while fuel st with
    | (Raised KeyboardInterrupt, st') =>
        (Returned tt,
         traced st' (world st')
           [Printed (Fore_RED +:+ nl +:+ "Chat interrupted. Returning to menu...")])
    | r => r
    end.
Proof.
  unfold _chat_with_ai_loop, try_except.
  destruct (chat_while fuel st) as [[[]|[| |cls msg]|] st']; reflexivity.
Qed.


(** *** The top level *)

Lemma run_eq fuel url st :
  run fuel url st
  = match run_body fuel url st with
    | (Raised KeyboardInterrupt, st') =>
        (Returned tt,
         traced st' (world st') [Printed (Fore_RED +:+ nl +:+ "Exiting...")])
    | (Raised (Exception _ msg), st') =>
        (Returned tt,
         traced st' (world st') [Printed (Fore_RED +:+ "Error: " +:+ msg)])
    | r => r
    end.
Proof.
  unfold run, try_except. fold (run_body fuel url).
  destruct (run_body fuel url st) as [[[]|[| |cls msg]|] st']; reflexivity.
Qed.


Lemma run_body_fetch_returned fuel url st t st1 :
  _fetch_video_transcript url st = (Returned t, st1) ->
  run_body fuel url st
  = _menu_loop fuel (mkState t (_chat_history st1) (world st1) (trace st1)).
Proof.
  intros E. unfold run_body. erewrite bind_returned by exact E.
  reflexivity.
Qed.


(** *** Change video *)

Lemma change_video_returns st url w0 vid es w1 p w2 :
  console_input url_prompt (world st) = (Reply url, w0) ->
  extract_video_id url = Reply vid ->
  api_get_transcript vid ["en"] w0 = (Reply es, w1) ->
  model_restore_punctuation (join " " (map text es)) w1 = (Reply p, w2) ->
  _change_video st
  = (Returned tt,
     mkState (line_breaks p) (_chat_history st) w2
       (trace st ++ [Input url_prompt]
        ++ fetch_events vid (join " " (map text es)))).
Proof.
  intros Hin Hid Hapi Hmodel. unfold _change_video.
  erewrite bind_returned.
  2:{ apply input_reply. exact Hin. }
  erewrite bind_returned.
  2:{ eapply fetch_returns; [exact Hid | exact Hapi | exact Hmodel]. }
  unfold set_self_transcript, traced. red_m.
  rewrite <- !app_assoc. reflexivity.
Qed.

Lemma change_video_inversion st st' :
  _change_video st = (Returned tt, st') ->
  exists url w0 vid es w1 p w2,
    console_input url_prompt (world st) = (Reply url, w0)
    /\ extract_video_id url = Reply vid
    /\ api_get_transcript vid ["en"] w0 = (Reply es, w1)
    /\ model_restore_punctuation (join " " (map text es)) w1 = (Reply p, w2)
    /\ st' = mkState (line_breaks p) (_chat_history st) w2
               (trace st ++ [Input url_prompt]
                ++ fetch_events vid (join " " (map text es))).
Proof.
  unfold _change_video. unfold bind at 1. unfold input, call.
  fold url_prompt.
  destruct (console_input url_prompt (world st)) as [[url|x] w0] eqn:Hin;
    [|discriminate].
  unfold bind.
  destruct (_fetch_video_transcript url _) as [[t| |] st1] eqn:Hfetch;
    try discriminate.
  apply fetch_inversion in Hfetch
    as (vid & es & w1 & p & w2 & Hid & Hapi & Hmodel & -> & ->).
  cbn [world traced] in Hapi.
  unfold set_self_transcript. intros [= <-].
  exists url, w0, vid, es, w1, p, w2. repeat split; try assumption.
  unfold traced. red_m. rewrite <- !app_assoc. reflexivity.
Qed.

(** A change of video that does not complete leaves the transcript. *)
Lemma change_video_keeps_on_failure st r st' :
  _change_video st = (r, st') -> r <> Returned tt ->
  _transcript st' = _transcript st.
Proof.
  unfold _change_video. unfold bind at 1. unfold input, call.
  destruct (console_input _ (world st)) as [[url|x] w0];
    [|intros [= <- <-]; reflexivity].
  unfold bind.
  destruct (fetch_quiet (mkState (_transcript st) (_chat_history st) w0
              (trace st ++ [Input (Fore_YELLOW +:+ "Please enter the YouTube video URL: ")])) url)
    as (evs & Hst & _).
  destruct (_fetch_video_transcript url _) as [[t| |] st1];
    cbn [snd] in Hst.
  - unfold set_self_transcript. intros [= <- <-] Hr. now destruct Hr.
  - intros [= <- <-] _. rewrite Hst. reflexivity.
  - intros [= <- <-] _. rewrite Hst. reflexivity.
Qed.

End AppFacts.

(** ** Invariants of the session *)

Section Invariants.
Context {W : Type} `{World W} `{Urllib} `{Colorama}.

#[export] Instance history_extends_invariant :
  SessionInvariant (W:=W) history_extends.
Proof.
  split.
  - split.
    + intros st. unfold history_extends. reflexivity.
    + intros st1 st2 st3. unfold history_extends. apply transitivity.
  - intros st st' Hh _. unfold history_extends. now rewrite Hh.
  - intros st st' q answer prompt Hh _. unfold history_extends.
    rewrite Hh. now apply prefix_app_r.
Qed.

Lemma count_invocations_app (evs1 evs2 : list event) :
  count_invocations (evs1 ++ evs2)
  = count_invocations evs1 + count_invocations evs2.
Proof.
  induction evs1 as [|e evs1 IH]; [reflexivity|].
  destruct e; simpl; now rewrite IH.
Qed.

#[export] Instance turns_accounted_invariant :
  SessionInvariant (W:=W) turns_accounted.
Proof.
  split.
  - split.
    + intros st. exists [], []. rewrite !app_nil_r. repeat split. simpl. lia.
    + intros st1 st2 st3 (n1 & e1 & Hh1 & Ht1 & Hc1) (n2 & e2 & Hh2 & Ht2 & Hc2).
      exists (n1 ++ n2), (e1 ++ e2).
      rewrite Hh2, Hh1, Ht2, Ht1, <- !app_assoc.
      repeat split. rewrite length_app, count_invocations_app. lia.
  - intros st st' Hh [evs Ht]. exists [], evs.
    rewrite app_nil_r. repeat split; [assumption..|simpl; lia].
  - intros st st' q answer prompt Hh Ht. exists [(q, answer)], (ask_events prompt).
    repeat split; [assumption..|simpl; lia].
Qed.

Context (R : relation (state W)) `{!SessionInvariant R}.

Lemma keeps_frame {A} (c : M W A) :
  (forall st, _chat_history (snd (c st)) = _chat_history st
              /\ trace st `prefix_of` trace (snd (c st))) ->
  preserves R c.
Proof. intros Hc st. destruct (Hc st). now apply inv_frame. Qed.

Lemma keeps_ret {A} (a : A) : preserves R (ret a).
Proof. intros st. reflexivity. Qed.

Lemma keeps_raise {A} (e : exn) : preserves R (raise (A:=A) e).
Proof. intros st. reflexivity. Qed.

Lemma keeps_out_of_fuel {A} : preserves R (out_of_fuel (A:=A)).
Proof. intros st. reflexivity. Qed.

Lemma keeps_lift_reply {A} (r : reply A) : preserves R (lift_reply r).
Proof. intros st. destruct r; reflexivity. Qed.

Lemma keeps_get_self_transcript : preserves R get_self_transcript.
Proof. intros st. reflexivity. Qed.

Lemma keeps_get_self_chat_history : preserves R get_self_chat_history.
Proof. intros st. reflexivity. Qed.

Lemma keeps_set_self_transcript (t : string) : preserves R (set_self_transcript t).
Proof. apply keeps_frame. intros st. split; reflexivity. Qed.

Lemma keeps_emit (e : event) : preserves R (emit e).
Proof.
  apply keeps_frame. intros st. split; [reflexivity|]. now apply prefix_app_r.
Qed.

Lemma keeps_print (args : list string) : preserves R (print args).
Proof. apply keeps_emit. Qed.

Lemma keeps_call {A} (e : event) (f : W -> reply A * W) : preserves R (call e f).
Proof.
  apply keeps_frame. intros st. unfold call.
  destruct (f (world st)) as [[a|x] w]; (split; [reflexivity|]);
    now apply prefix_app_r.
Qed.

Lemma keeps_input (prompt : string) : preserves R (input prompt).
Proof. apply keeps_call. Qed.

Lemma keeps_bind {A B} (c : M W A) (k : A -> M W B) :
  preserves R c -> (forall a, preserves R (k a)) -> preserves R (bind c k).
Proof.
  intros Hc Hk st. unfold bind. specialize (Hc st).
  destruct (c st) as [[a| |] st']; cbn [snd] in *; [|assumption..].
  etransitivity; [exact Hc | apply Hk].
Qed.

Lemma keeps_try_except {A} (body : M W A) (handler : exn -> option (M W A)) :
  preserves R body ->
  (forall e h, handler e = Some h -> preserves R h) ->
  preserves R (try_except body handler).
Proof.
  intros Hb Hh st. unfold try_except. specialize (Hb st).
  destruct (body st) as [[a|e|] st']; cbn [snd] in *; [assumption| |assumption].
  destruct (handler e) as [h|] eqn:E; [|assumption].
  etransitivity; [exact Hb | eapply Hh, E].
Qed.

Lemma keeps_for_each {A} (l : list A) (body : A -> M W unit) :
  (forall x, preserves R (body x)) -> preserves R (for_each l body).
Proof.
  intros Hb. induction l as [|x l IH]; simpl.
  - apply keeps_ret.
  - apply keeps_bind; [apply Hb | intros _; exact IH].
Qed.

(** A tactic for straight-line methods. *)
Ltac keeps :=
  repeat first
    [ apply keeps_ret | apply keeps_raise | apply keeps_out_of_fuel
    | apply keeps_lift_reply | apply keeps_get_self_transcript
    | apply keeps_get_self_chat_history | apply keeps_set_self_transcript
    | apply keeps_emit | apply keeps_print | apply keeps_input
    | apply keeps_call | assumption
    | apply keeps_bind; [|intros ?] ].

Lemma keeps_get_transcript vid : preserves R (get_transcript vid).
Proof. unfold get_transcript. keeps. Qed.

Lemma keeps_add_punctuation t : preserves R (add_punctuation t).
Proof. unfold add_punctuation. keeps. Qed.

Lemma keeps_fetch url : preserves R (_fetch_video_transcript url).
Proof.
  unfold _fetch_video_transcript.
  apply keeps_bind; [apply keeps_emit|]. intros _.
  apply keeps_bind; [apply keeps_lift_reply|]. intros vid.
  apply keeps_bind; [apply keeps_get_transcript|]. intros raw.
  apply keeps_bind; [apply keeps_emit|]. intros _.
  apply keeps_bind; [apply keeps_emit|]. intros _.
  apply keeps_bind; [apply keeps_add_punctuation|]. intros p.
  apply keeps_bind; [apply keeps_emit|]. intros _.
  apply keeps_ret.
Qed.

(** The one method that touches the history. *)
Lemma keeps_chat_with_ai t q : preserves R (_chat_with_ai t q).
Proof.
  intros st.
  destruct (llm_invoke_content (prepare_prompt t q (_chat_history st)) (world st))
    as [[content|e] w] eqn:E.
  - rewrite (chat_with_ai_reply st t q content w E). cbn [snd].
    eapply inv_turn; reflexivity.
  - rewrite (chat_with_ai_fails st t q e w E). cbn [snd].
    apply inv_frame; [reflexivity|]. now apply prefix_app_r.
Qed.

Lemma keeps_ask_ai_single_question q : preserves R (_ask_ai_single_question q).
Proof.
  unfold _ask_ai_single_question.
  apply keeps_bind; [apply keeps_get_self_transcript|]. intros t.
  apply keeps_bind; [apply keeps_chat_with_ai|]. intros a. apply keeps_print.
Qed.

Lemma keeps_print_transcript : preserves R _print_transcript.
Proof. unfold _print_transcript. keeps. Qed.

Lemma keeps_change_video : preserves R _change_video.
Proof.
  unfold _change_video.
  apply keeps_bind; [apply keeps_input|]. intros url.
  apply keeps_bind; [apply keeps_fetch|]. intros t.
  apply keeps_set_self_transcript.
Qed.

Lemma keeps_exit_app : preserves R _exit_app.
Proof. unfold _exit_app. keeps. Qed.

Lemma keeps_chat_while fuel : preserves R (chat_while fuel).
Proof.
  induction fuel as [|fuel IH]; simpl; [apply keeps_out_of_fuel|].
  apply keeps_bind; [apply keeps_input|]. intros question.
  destruct (decide (lower question = "exit")); [apply keeps_ret|].
  apply keeps_bind; [apply keeps_get_self_transcript|]. intros t.
  apply keeps_bind; [apply keeps_chat_with_ai|]. intros a.
  apply keeps_bind; [apply keeps_print | intros _; exact IH].
Qed.

Lemma keeps_chat_with_ai_loop fuel : preserves R (_chat_with_ai_loop fuel).
Proof.
  unfold _chat_with_ai_loop. apply keeps_try_except; [apply keeps_chat_while|].
  intros [| |cls msg] h [= <-]. apply keeps_print.
Qed.

Lemma keeps_call_method fuel action arg :
  preserves R (call_method fuel action arg).
Proof.
  destruct action, arg as [a|]; simpl;
    first [ apply keeps_print_transcript | apply keeps_ask_ai_single_question
          | apply keeps_chat_with_ai_loop | apply keeps_change_video
          | apply keeps_exit_app | apply keeps_raise ].
Qed.

Lemma keeps_print_menu : preserves R print_menu.
Proof.
  unfold print_menu. apply keeps_bind; [apply keeps_print|]. intros _.
  apply keeps_for_each. intros [key [[description action] rest]].
  apply keeps_print.
Qed.

Lemma keeps_menu_iteration fuel : preserves R (menu_iteration fuel).
Proof.
  unfold menu_iteration. apply keeps_bind; [apply keeps_print_menu|]. intros _.
  apply keeps_bind; [apply keeps_input|]. intros choice.
  destruct (dict_lookup choice _menu_options)
    as [[[description action] question]|]; [|apply keeps_print].
  destruct question; apply keeps_call_method.
Qed.

Lemma keeps_menu_loop fuel : preserves R (_menu_loop fuel).
Proof.
  induction fuel as [|fuel IH]; simpl; [apply keeps_out_of_fuel|].
  apply keeps_bind; [apply keeps_menu_iteration | intros _; exact IH].
Qed.

Lemma keeps_run fuel url : preserves R (run fuel url).
Proof.
  unfold run. apply keeps_try_except.
  - apply keeps_bind; [apply keeps_fetch|]. intros t.
    apply keeps_bind; [apply keeps_set_self_transcript|]. intros _.
    apply keeps_menu_loop.
  - intros [| |cls msg] h [= <-]; apply keeps_print.
Qed.

Lemma keeps_main fuel args_url : preserves R (main fuel args_url).
Proof.
  unfold main. apply keeps_bind; [|intros url; apply keeps_run].
  destruct args_url as [[|c u]|];
    first [apply keeps_input | apply keeps_ret].
Qed.

End Invariants.

(** * The claims *)

(** ** Transcript handler *)

(** C1. For every URL that [urlparse] accepts: when the hostname is
    [www.youtube.com], [extract_video_id] returns the (first) value of the
    [v] query parameter, and [None] when the query has no [v]; when the
    hostname is [youtu.be], it returns the path without its first
    character, which is the part after the leading slash; for any other
    hostname it returns [None].  The function is pure: lifted into the
    program it leaves the state as it is and its result does not depend
    on the state.  On the reference instance of [urllib.parse], the two
    URL forms give back every identifier of letters, digits, hyphens and
    underscores, [ABC123] and [XYZ987] among them. *)
Theorem extract_video_id_by_hostname :
  (forall (U : Urllib) (url : string) (p : ParseResult),
      urlparse url = Reply p ->
      (hostname p = Some "www.youtube.com" ->
         (forall v vs, parse_qs (query p) !! "v" = Some (v :: vs) ->
                       extract_video_id url = Reply (Some v))
         /\ (parse_qs (query p) !! "v" = None ->
             extract_video_id url = Reply None))
      /\ (hostname p = Some "youtu.be" ->
          extract_video_id url = Reply (Some (slice_from_1 (path p)))
          /\ (forall segment, path p = "/" +:+ segment ->
                              extract_video_id url = Reply (Some segment)))
      /\ (hostname p <> Some "www.youtube.com" ->
          hostname p <> Some "youtu.be" ->
          extract_video_id url = Reply None))
  /\ (forall (U : Urllib) (W : Type) (url : string) (st1 st2 : state W),
        snd (lift_reply (extract_video_id url) st1) = st1
        /\ fst (lift_reply (extract_video_id url) st1)
           = fst (lift_reply (extract_video_id url) st2))
  /\ (forall id,
        is_identifier id ->
        @extract_video_id reference_urllib
          ("https://www.youtube.com/watch?v=" +:+ id) = Reply (Some id)
        /\ @extract_video_id reference_urllib ("https://youtu.be/" +:+ id)
           = Reply (Some id))
  /\ @extract_video_id reference_urllib "https://www.youtube.com/watch?v=ABC123"
     = Reply (Some "ABC123")
  /\ @extract_video_id reference_urllib "https://youtu.be/XYZ987"
     = Reply (Some "XYZ987")
  /\ @extract_video_id reference_urllib "https://vimeo.com/watch?v=ABC123"
     = Reply None.
Proof.
  split; [|split; [|split; [exact reference_extract_video_id|
                            repeat split; vm_compute; reflexivity]]].
  - intros U url p Hp. unfold extract_video_id. rewrite Hp.
    split; [|split].
    + intros Hhost. rewrite decide_True by exact Hhost. split.
      * intros v vs ->. reflexivity.
      * intros ->. reflexivity.
    + intros Hhost.
      rewrite decide_False by (rewrite Hhost; discriminate).
      rewrite decide_True by exact Hhost. split; [reflexivity|].
      intros segment ->. reflexivity.
    + intros Hn1 Hn2. now rewrite !decide_False by assumption.
  - intros U W url st1 st2. unfold lift_reply.
    destruct (extract_video_id url); split; reflexivity.
Qed.

Lemma extract_video_id_by_hostname_witness :
  @extract_video_id reference_urllib "https://www.youtube.com/watch?v=ABC123"
    = Reply (Some "ABC123")
  /\ @extract_video_id reference_urllib "https://youtu.be/XYZ987"
    = Reply (Some "XYZ987")
  /\ @extract_video_id reference_urllib "ftp://Example.ORG/XYZ987" = Reply None.
Proof.
  pose proof (proj1 extract_video_id_by_hostname reference_urllib) as T.
  split; [|split].
  - refine (proj1 (proj1 (T "https://www.youtube.com/watch?v=ABC123"
                            (mkParseResult (Some "www.youtube.com") "/watch" "v=ABC123")
                            _) _) "ABC123" [] _);
      vm_compute; reflexivity.
  - refine (proj2 (proj1 (proj2 (T "https://youtu.be/XYZ987"
                            (mkParseResult (Some "youtu.be") "/XYZ987" "")
                            _)) _) "XYZ987" _);
      vm_compute; reflexivity.
  - refine (proj2 (proj2 (T "ftp://Example.ORG/XYZ987"
                            (mkParseResult (Some "example.org") "/XYZ987" "")
                            _)) _ _);
      [vm_compute; reflexivity | discriminate | discriminate].
Defined.

(** C2. [get_transcript] returns the [text] fields of the caption entries
    joined by single spaces, whatever their timing; [add_punctuation]
    returns the model's output with a line feed in the place of every
    space that follows a period or a comma and no other change.  For the
    entries "hello world" and "how are you" and a model answering
    "Hello world. How are you?", the fetched transcript is the two lines
    "Hello world." and "How are you?".  What joining is, is stated apart
    from its definition: nothing for no entry, the entry for one, the
    first entry, one separator and the rest joined for more; it is the
    standard library's [String.concat], has one separator between two
    lists joined, and the length of its parts and separators. *)
Theorem transcript_preparation {W : Type} `{World W} `{Urllib} `{Colorama} :
  (forall (st : state W) vid es w,
      api_get_transcript vid ["en"] (world st) = (Reply es, w) ->
      get_transcript vid st
      = (Returned (join " " (map text es)), traced st w [GetTranscript vid ["en"]]))
  /\ (forall (st st' : state W) vid es es' w w',
        api_get_transcript vid ["en"] (world st) = (Reply es, w) ->
        api_get_transcript vid ["en"] (world st') = (Reply es', w') ->
        map text es = map text es' ->
        fst (get_transcript vid st) = fst (get_transcript vid st'))
  /\ (forall (st : state W) raw p w,
        model_restore_punctuation raw (world st) = (Reply p, w) ->
        add_punctuation raw st
        = (Returned (line_breaks p), traced st w [RestorePunctuation raw])
        /\ line_breaks p = line_breaks_spec p
        /\ String.length (line_breaks p) = String.length p
        /\ forall i,
             String.get i (line_breaks p) =
             match String.get i p with
             | None => None
             | Some c =>
                 let after_mark :=
                   match i with
                   | O => false
                   | S j => match String.get j p with
                            | Some m => is_mark m
                            | None => false
                            end
                   end in
                 Some (if after_mark && Ascii.eqb c " " then LF else c)
             end)
  /\ (forall (st : state W) url c1 c2 w1 w2,
        extract_video_id url = Reply (Some "ABC123") ->
        api_get_transcript (Some "ABC123") ["en"] (world st) = (Reply [c1; c2], w1) ->
        text c1 = "hello world" -> text c2 = "how are you" ->
        model_restore_punctuation "hello world how are you" w1
          = (Reply "Hello world. How are you?", w2) ->
        exists t st',
          _fetch_video_transcript url st = (Returned t, st')
          /\ split_lines t = ["Hello world."; "How are you?"])
  /\ ((forall sep, join sep [] = "")
      /\ (forall sep x, join sep [x] = x)
      /\ (forall sep x y l,
            join sep (x :: y :: l) = x +:+ sep +:+ join sep (y :: l))
      /\ (forall sep l1 l2,
            l1 <> [] -> l2 <> [] ->
            join sep (l1 ++ l2) = join sep l1 +:+ sep +:+ join sep l2)
      /\ (forall sep l, join sep l = String.concat sep l)
      /\ (forall sep l,
            String.length (join sep l) + String.length sep
            = match l with
              | [] => String.length sep
              | _ => list_sum
                       (map (fun x => String.length x + String.length sep) l)
              end))
  /\ (forall (st : state W) vid c c' es w,
        api_get_transcript vid ["en"] (world st) = (Reply (c :: c' :: es), w) ->
        fst (get_transcript vid st)
        = Returned (text c +:+ " " +:+ join " " (map text (c' :: es)))).
Proof.
  split; [|split; [|split; [|split; [|split]]]].
  - intros st vid es w E. now apply get_transcript_reply.
  - intros st st' vid es es' w w' E E' Htext.
    rewrite (get_transcript_reply _ _ _ _ E), (get_transcript_reply _ _ _ _ E').
    simpl. now rewrite Htext.
  - intros st raw p w E. split; [now apply add_punctuation_reply|].
    rewrite line_breaks_refines. unfold line_breaks_spec.
    split; [reflexivity|]. split; [apply break_after_marks_length|].
    intros i. apply break_after_marks_get.
  - intros st url c1 c2 w1 w2 Hid Hapi Hc1 Hc2 Hmodel.
    assert (Hraw : join " " (map text [c1; c2]) = "hello world how are you")
      by (simpl; rewrite Hc1, Hc2; reflexivity).
    rewrite <- Hraw in Hmodel.
    eexists _, _. split.
    + eapply fetch_returns; [exact Hid | exact Hapi | exact Hmodel].
    + vm_compute. reflexivity.
  - split; [reflexivity|]. split; [reflexivity|]. split; [reflexivity|].
    split; [exact join_app|]. split; [exact join_concat | exact join_length].
  - intros st vid c c' es w E.
    rewrite (get_transcript_reply _ _ _ _ E). reflexivity.
Qed.

Lemma transcript_preparation_witness :
  exists t st',
    _fetch_video_transcript "https://www.youtube.com/watch?v=ABC123"
      (new_app example_script) = (Returned t, st')
    /\ split_lines t = ["Hello world."; "How are you?"].
Proof.
  refine (proj1 (proj2 (proj2 (proj2
            (@transcript_preparation script scripted_world reference_urllib
               ansi_colorama))))
            (new_app example_script) "https://www.youtube.com/watch?v=ABC123"
            (mkCaption "hello world" 0 1500) (mkCaption "how are you" 1500 1200)
            (mkScript [Reply "4"; Reply "0"] []
               [Reply "Hello world. How are you?"]
               [Reply "  1. What is said? A greeting.  "])
            (mkScript [Reply "4"; Reply "0"] [] []
               [Reply "  1. What is said? A greeting.  "])
            _ _ _ _ _);
    vm_compute; reflexivity.
Defined.

(** C10. A text with no period-plus-space and no comma-plus-space is left
    as it is by the two replacements; the output of the two replacements
    never has such a pair, so that applying them to their own output
    changes nothing. *)
Theorem line_breaks_idempotent (s : string) :
  contains ". " s = false -> contains ", " s = false ->
  line_breaks s = s
  /\ (forall t, contains ". " (line_breaks t) = false
                /\ contains ", " (line_breaks t) = false
                /\ line_breaks (line_breaks t) = line_breaks t).
Proof.
  intros Hdot Hcomma. split; [now apply line_breaks_id|].
  intros t. destruct (line_breaks_clean t) as [Hd Hc].
  repeat split; try assumption. now apply line_breaks_id.
Qed.

Lemma line_breaks_idempotent_witness :
  contains ". " ("Hello world." +:+ nl +:+ "How are you?") = false
  /\ line_breaks ("Hello world." +:+ nl +:+ "How are you?")
     = "Hello world." +:+ nl +:+ "How are you?".
Proof.
  split; [reflexivity|].
  apply (line_breaks_idempotent ("Hello world." +:+ nl +:+ "How are you?"));
    reflexivity.
Defined.

(** ** Assistant handler *)

(** C3. The prompt is the fixed head, the transcript verbatim, the fixed
    text before the history, the rendered history, the fixed text before
    the question, the question, and the fixed tail.  The rendered history
    has every turn as "Q: ..." and "A: ..." on two lines, in the order of
    the list: a turn appended to the history is rendered last, and of two
    turns the earlier is rendered first.  With an empty history the
    rendered history is empty and the prompt is still built.  A question
    that is a [str] is in the prompt as it is; one that is a list is
    there as Python writes a list: for plain strings (printable ASCII
    without apostrophe and backslash, as the canned questions are), each
    between apostrophes, separated by a comma and a space, in brackets,
    so that the string itself and, for a canned question passed in a
    one-element list, "Question: ['...']" occur in the prompt, and a turn
    of the history with such a question is rendered "Q: ['...']". *)
Theorem prepare_prompt_contents (t : string) (q : pyval)
    (h : list (pyval * string)) :
  prepare_prompt t q h
  = prompt_head +:+ t +:+ prompt_before_history +:+ render_history h
    +:+ prompt_before_question +:+ format_value q +:+ prompt_tail
  /\ occurs_in t (prepare_prompt t q h)
  /\ occurs_in (format_value q) (prepare_prompt t q h)
  /\ (forall s, q = PStr s -> occurs_in s (prepare_prompt t q h))
  /\ (forall h1 q1 a1 h2,
        h = h1 ++ (q1, a1) :: h2 ->
        render_history h
        = lead h1 +:+ ("Q: " +:+ format_value q1 +:+ nl +:+ "A: " +:+ a1)
          +:+ trail h2
        /\ occurs_in ("Q: " +:+ format_value q1 +:+ nl +:+ "A: " +:+ a1)
                     (prepare_prompt t q h))
  /\ (forall h1 q1 a1 h2 q2 a2 h3,
        h = h1 ++ (q1, a1) :: h2 ++ (q2, a2) :: h3 ->
        render_history h
        = lead h1 +:+ ("Q: " +:+ format_value q1 +:+ nl +:+ "A: " +:+ a1)
          +:+ nl +:+ lead h2
          +:+ ("Q: " +:+ format_value q2 +:+ nl +:+ "A: " +:+ a2)
          +:+ trail h3)
  /\ (forall turn,
        render_history (h ++ [turn])
        = match h with
          | [] => render_turn turn
          | _ => render_history h +:+ nl +:+ render_turn turn
          end)
  /\ render_history [] = ""
  /\ prepare_prompt t q []
     = prompt_head +:+ t +:+ prompt_before_history
       +:+ prompt_before_question +:+ format_value q +:+ prompt_tail
  /\ (forall s, format_value (PStr s) = s)
  /\ (forall l,
        Forall is_plain l ->
        format_value (PList l)
        = "[" +:+ join ", " (map (fun s => "'" +:+ s +:+ "'") l) +:+ "]")
  /\ (forall s,
        is_plain s -> q = PList [s] ->
        format_value q = "['" +:+ s +:+ "']"
        /\ occurs_in s (prepare_prompt t q h)
        /\ occurs_in ("Question: ['" +:+ s +:+ "']") (prepare_prompt t q h))
  /\ (forall h1 s a1 h2,
        is_plain s -> h = h1 ++ (PList [s], a1) :: h2 ->
        occurs_in ("Q: ['" +:+ s +:+ "']" +:+ nl +:+ "A: " +:+ a1)
                  (prepare_prompt t q h))
  /\ format_value (PList []) = "[]"
  /\ format_value (PList ["x"; "y"]) = "['x', 'y']"
  /\ format_value (PList ["it's"]) = "[" +:+ dquote +:+ "it's" +:+ dquote +:+ "]"
  /\ format_value (PList ["a\b"]) = "['a\\b']"
  /\ format_value (PList ["a" +:+ nl +:+ "b"]) = "['a\nb']"
  /\ (is_plain "provide a summary of the video content"
      /\ is_plain "provide a 5 question FAQ based on the video content"
      /\ is_plain "provide a table of contents based on the video content").
Proof.
  assert (Hmid : forall h1 x h2,
             render_history (h1 ++ x :: h2)
             = lead h1 +:+ render_turn x +:+ trail h2).
  { intros h1 x h2. unfold render_history, lead, trail.
    rewrite map_app. cbn [map]. rewrite join_middle.
    destruct h1, h2; reflexivity. }
  assert (Hhist : forall x, occurs_in x (render_history h) ->
                            occurs_in x (prepare_prompt t q h)).
  { intros x Hx. unfold prepare_prompt.
    do 3 apply occurs_in_append_l. now apply occurs_in_append_r. }
  split; [reflexivity|].
  split; [apply occurs_in_mid|].
  assert (Hq : occurs_in (format_value q) (prepare_prompt t q h)).
  { unfold prepare_prompt. do 4 apply occurs_in_append_l.
    exists prompt_before_question, prompt_tail. reflexivity. }
  split; [exact Hq|].
  split; [intros s ->; exact Hq|].
  split.
  { intros h1 q1 a1 h2 ->. rewrite Hmid. split; [reflexivity|].
    apply Hhist. rewrite Hmid. apply occurs_in_mid. }
  split.
  { intros h1 q1 a1 h2 q2 a2 h3 ->. rewrite Hmid.
    assert (Ht : trail (h2 ++ (q2, a2) :: h3)
                 = nl +:+ lead h2 +:+ render_turn (q2, a2) +:+ trail h3).
    { unfold trail at 1. rewrite Hmid. destruct h2; reflexivity. }
    rewrite Ht. reflexivity. }
  split.
  { intros turn. unfold render_history. rewrite map_app. cbn [map].
    rewrite join_snoc. destruct h; reflexivity. }
  split; [reflexivity|]. split; [reflexivity|]. split; [reflexivity|].
  split; [exact format_value_plain_list|].
  assert (Hone : forall s, is_plain s ->
                           format_value (PList [s]) = "['" +:+ s +:+ "']").
  { intros s Hs. rewrite format_value_plain_list by (now constructor).
    cbn [map join]. now rewrite !append_assoc. }
  split.
  { intros s Hs ->. split; [now apply Hone|]. split.
    - unfold prepare_prompt. do 5 apply occurs_in_append_l.
      apply occurs_in_append_r. rewrite (Hone s Hs). apply occurs_in_mid.
    - exists (prompt_head +:+ t +:+ prompt_before_history +:+ render_history h
              +:+ nl +:+ nl +:+ indent), prompt_tail.
      unfold prepare_prompt, prompt_before_question. rewrite (Hone s Hs).
      change "Question: ['" with ("Question: " +:+ "['").
      rewrite !append_assoc. reflexivity. }
  split.
  { intros h1 s a1 h2 Hs ->. apply Hhist. rewrite Hmid.
    assert (E : "Q: ['" +:+ s +:+ "']" +:+ nl +:+ "A: " +:+ a1
                = render_turn (PList [s], a1)).
    { unfold render_turn. rewrite (Hone s Hs).
      change "Q: ['" with ("Q: " +:+ "['"). now rewrite !append_assoc. }
    rewrite E. apply occurs_in_mid. }
  repeat split; vm_compute; reflexivity.
Qed.

Lemma prepare_prompt_contents_witness :
  occurs_in "Q: first" (prepare_prompt "text" (PStr "third")
                          [(PStr "first", "one"); (PStr "second", "two")])
  /\ occurs_in "third" (prepare_prompt "text" (PStr "third")
                          [(PStr "first", "one"); (PStr "second", "two")]).
Proof.
  pose proof (prepare_prompt_contents "text" (PStr "third")
                [(PStr "first", "one"); (PStr "second", "two")]) as T.
  split.
  - destruct (proj1 (proj2 (proj2 (proj2 (proj2 T))))
                [] (PStr "first") "one" [(PStr "second", "two")] eq_refl)
      as [_ (l & r & E)].
    exists l, (nl +:+ "A: one" +:+ r). rewrite E.
    change (format_value (PStr "first")) with "first".
    now rewrite !append_assoc.
  - exact (proj1 (proj2 (proj2 (proj2 T))) "third" eq_refl).
Defined.

(** ** Interactive controller *)

(** C4. A completed assistant round-trip appends exactly the pair
    (question, answer) at the end of the history and one that does not
    complete appends nothing; this is so for a canned menu question and
    for a question of the chat sub-loop.  Every operation of the program
    (each menu action, one pass of the menu, the chat sub-loop, the menu
    loop on any fuel, [run], [main]) ends in a state whose history has
    the history it started from as a prefix: entries keep their position
    and content, and the length never decreases.  Over the menu loop
    and over [run] the turns added are new entries at the end, never more
    of them than requests were sent to the assistant. *)
Theorem chat_history_append_only {W : Type} `{World W} `{Urllib} `{Colorama} :
  (forall t q (st : state W) r st',
      _chat_with_ai t q st = (r, st') ->
      match r with
      | Returned answer => _chat_history st' = _chat_history st ++ [(q, answer)]
      | _ => _chat_history st' = _chat_history st
      end)
  /\ (forall q (st : state W) content w,
        llm_invoke_content
          (prepare_prompt (_transcript st) q (_chat_history st)) (world st)
          = (Reply content, w) ->
        exists st',
          _ask_ai_single_question q st = (Returned tt, st')
          /\ _chat_history st' = _chat_history st ++ [(q, strip content)])
  /\ (forall fuel (st : state W) question w1 content w2,
        console_input chat_prompt (world st) = (Reply question, w1) ->
        lower question <> "exit" ->
        llm_invoke_content
          (prepare_prompt (_transcript st) (PStr question) (_chat_history st)) w1
          = (Reply content, w2) ->
        exists st',
          chat_while (S fuel) st = chat_while fuel st'
          /\ _chat_history st'
             = _chat_history st ++ [(PStr question, strip content)])
  /\ (forall fuel action arg, history_grows (W:=W) (call_method fuel action arg))
  /\ (forall fuel, history_grows (W:=W) (menu_iteration fuel))
  /\ (forall fuel, history_grows (W:=W) (_chat_with_ai_loop fuel))
  /\ (forall fuel, history_grows (W:=W) (_menu_loop fuel))
  /\ (forall fuel url, history_grows (W:=W) (run fuel url))
  /\ (forall fuel args_url, history_grows (W:=W) (main fuel args_url))
  /\ (forall fuel (st : state W), turns_accounted st (snd (_menu_loop fuel st)))
  /\ (forall fuel url (st : state W), turns_accounted st (snd (run fuel url st)))
  /\ (forall fuel (st : state W),
        length (_chat_history st) <= length (_chat_history (snd (_menu_loop fuel st)))
        /\ forall i turn,
             _chat_history st !! i = Some turn ->
             _chat_history (snd (_menu_loop fuel st)) !! i = Some turn).
Proof.
  split; [intros t q st r st'; apply chat_with_ai_inversion|].
  split.
  { intros q st content w E. eexists. split.
    - apply ask_ai_single_question_reply. exact E.
    - reflexivity. }
  split.
  { intros fuel st question w1 content w2 E Hq Hllm. eexists. split.
    - eapply chat_while_ask; [exact E | exact Hq | exact Hllm].
    - reflexivity. }
  split; [intros; apply keeps_call_method; apply _|].
  split; [intros; apply keeps_menu_iteration; apply _|].
  split; [intros; apply keeps_chat_with_ai_loop; apply _|].
  split; [intros; apply keeps_menu_loop; apply _|].
  split; [intros; apply keeps_run; apply _|].
  split; [intros; apply keeps_main; apply _|].
  split; [intros fuel st; apply (keeps_menu_loop turns_accounted)|].
  split; [intros fuel url st; apply (keeps_run turns_accounted)|].
  intros fuel st. pose proof (keeps_menu_loop history_extends fuel st) as Hp. split.
  - now apply prefix_length.
  - intros i turn Hi. eapply prefix_lookup_Some; [exact Hi | exact Hp].
Qed.

Lemma chat_history_append_only_witness :
  _chat_history
    (snd (_chat_with_ai "Hello world." (PStr "what is said?")
            (new_app example_script)))
  = [(PStr "what is said?", "1. What is said? A greeting.")].
Proof.
  pose proof (proj1 (@chat_history_append_only script scripted_world
                       reference_urllib ansi_colorama)
                "Hello world." (PStr "what is said?") (new_app example_script)
                _ _ (surjective_pairing _)) as T.
  vm_compute in T. vm_compute. exact T.
Defined.







(** C8. When the choice read at the menu is "4" (FAQ) and the backend
    answers, the one prompt sent to the backend is built from the session
    transcript, the canned question and the history; the canned text
    "provide a 5 question FAQ based on the video content" and the
    transcript occur in it verbatim; the line printed is the backend's
    reply with the whitespace at its two ends removed and nothing else
    changed.  What is written before it is the menu, line by line as
    spelled out, the prompt of the choice and the progress marks of the
    request. *)
Theorem faq_action {W : Type} `{World W} `{Urllib} `{Colorama}
    (fuel : nat) (st : state W) (w1 : W) (content : string) (w2 : W) :
  let faq := "provide a 5 question FAQ based on the video content" in
  let prompt := prepare_prompt (_transcript st) (PList [faq]) (_chat_history st) in
  console_input menu_prompt (world st) = (Reply "4", w1) ->
  llm_invoke_content prompt w1 = (Reply content, w2) ->
  menu_iteration fuel st
  = (Returned tt,
     mkState (_transcript st)
       (_chat_history st ++ [(PList [faq], strip content)]) w2
       (trace st ++ menu_events ++ [Input menu_prompt]
        ++ ask_events prompt ++ [Printed (strip content)]))
  /\ occurs_in faq prompt
  /\ occurs_in (_transcript st) prompt
  /\ menu_events
     = [ Printed (Fore_CYAN +:+ nl +:+ "Menu:");
         Printed (Fore_CYAN +:+ "1" +:+ ". " +:+ "Print Punctuated Transcript");
         Printed (Fore_CYAN +:+ "2" +:+ ". " +:+ "Summarize Transcript");
         Printed (Fore_CYAN +:+ "3" +:+ ". " +:+ "Chat with AI Assistant");
         Printed (Fore_CYAN +:+ "4" +:+ ". " +:+ "FAQ");
         Printed (Fore_CYAN +:+ "5" +:+ ". " +:+ "Table of Contents");
         Printed (Fore_CYAN +:+ "6" +:+ ". " +:+ "Change Video");
         Printed (Fore_CYAN +:+ "0" +:+ ". " +:+ "Exit") ]
  /\ ask_events prompt
     = [ SpinnerStart "Asking AI..."; LLMInvoke prompt;
         SpinnerSucceed (Fore_GREEN +:+ "AI Answer:") ]
  /\ exists l r,
       content = l +:+ strip content +:+ r
       /\ string_forallb isspace l = true
       /\ string_forallb isspace r = true
       /\ (forall c, first_char (strip content) = Some c -> isspace c = false)
       /\ (forall c, last_char (strip content) = Some c -> isspace c = false).
Proof.
  intros faq prompt Hin Hllm.
  split; [|split; [|split; [|split; [reflexivity|split; [reflexivity|]]]]].
  - rewrite (menu_iteration_canned fuel st "4" "FAQ" faq w1 eq_refl Hin).
    erewrite ask_ai_single_question_reply by exact Hllm.
    unfold traced. red_m. rewrite <- !app_assoc. reflexivity.
  - unfold prompt, prepare_prompt. do 5 apply occurs_in_append_l.
    apply occurs_in_append_r.
    change (format_value (PList [faq])) with ("['" +:+ faq +:+ "']").
    apply occurs_in_mid.
  - apply occurs_in_mid.
  - apply strip_spec.
Qed.

Lemma faq_action_witness :
  fst (menu_iteration 0
         (session_in_menu [Reply "4"] [Reply "  1. What is said? A greeting.  "]))
  = Returned tt
  /\ last (trace (snd (menu_iteration 0
         (session_in_menu [Reply "4"] [Reply "  1. What is said? A greeting.  "]))))
     = Some (Printed "1. What is said? A greeting.").
Proof.
  destruct (@faq_action script scripted_world reference_urllib ansi_colorama
              0 (session_in_menu [Reply "4"] [Reply "  1. What is said? A greeting.  "])
              (mkScript [] [] [] [Reply "  1. What is said? A greeting.  "])
              "  1. What is said? A greeting.  "
              (mkScript [] [] [] [])
              ltac:(vm_compute; reflexivity) ltac:(vm_compute; reflexivity))
    as [E _].
  rewrite E. split; [reflexivity | vm_compute; reflexivity].
Defined.

(** C9. The entries of the menu for "summarize", "FAQ" and "table of
    contents" carry their canned question as a third component, which
    star-unpacking turns into a one-element list; the dispatcher passes
    that list, not the string, to [_ask_ai_single_question].  The prompt
    therefore has the list's [repr] after "Question: " (for the summary:
    Question: ['provide a summary of the video content']) and the pair
    appended to the history has the list as its question. *)
Theorem canned_question_is_passed_as_list {W : Type} `{World W} `{Urllib}
    `{Colorama} :
  dict_lookup "2" _menu_options
    = Some ("Summarize Transcript", m_ask_ai_single_question,
            ["provide a summary of the video content"])
  /\ dict_lookup "4" _menu_options
     = Some ("FAQ", m_ask_ai_single_question,
             ["provide a 5 question FAQ based on the video content"])
  /\ dict_lookup "5" _menu_options
     = Some ("Table of Contents", m_ask_ai_single_question,
             ["provide a table of contents based on the video content"])
  /\ (forall key description action rest,
        dict_lookup key _menu_options = Some (description, action, rest) ->
        action = m_ask_ai_single_question ->
        key ∈ ["2"; "4"; "5"] /\ exists canned, rest = [canned])
  /\ (forall fuel (st : state W) key description canned w1,
        dict_lookup key _menu_options
          = Some (description, m_ask_ai_single_question, [canned]) ->
        console_input menu_prompt (world st) = (Reply key, w1) ->
        menu_iteration fuel st
        = _ask_ai_single_question (PList [canned])
            (traced st w1 (menu_events ++ [Input menu_prompt])))
  /\ (forall t canned h,
        prepare_prompt t (PList [canned]) h
        = prompt_head +:+ t +:+ prompt_before_history +:+ render_history h
          +:+ prompt_before_question +:+ ("[" +:+ repr canned +:+ "]")
          +:+ prompt_tail)
  /\ (forall t h,
        occurs_in "Question: ['provide a summary of the video content']"
          (prepare_prompt t (PList ["provide a summary of the video content"]) h)
        /\ occurs_in
             "Question: ['provide a 5 question FAQ based on the video content']"
             (prepare_prompt t
                (PList ["provide a 5 question FAQ based on the video content"]) h)
        /\ occurs_in
             "Question: ['provide a table of contents based on the video content']"
             (prepare_prompt t
                (PList ["provide a table of contents based on the video content"]) h))
  /\ (forall fuel (st : state W) key description canned w1 content w2,
        dict_lookup key _menu_options
          = Some (description, m_ask_ai_single_question, [canned]) ->
        console_input menu_prompt (world st) = (Reply key, w1) ->
        llm_invoke_content
          (prepare_prompt (_transcript st) (PList [canned]) (_chat_history st)) w1
          = (Reply content, w2) ->
        exists st',
          menu_iteration fuel st = (Returned tt, st')
          /\ _chat_history st'
             = _chat_history st ++ [(PList [canned], strip content)]
          /\ last (_chat_history st') <> Some (PStr canned, strip content)
          /\ LLMInvoke (prepare_prompt (_transcript st) (PList [canned])
                          (_chat_history st)) ∈ trace st').
Proof.
  assert (Hq : forall t canned h,
             occurs_in ("Question: " +:+ format_value (PList [canned]))
                       (prepare_prompt t (PList [canned]) h)).
  { intros t canned h.
    exists (prompt_head +:+ t +:+ prompt_before_history +:+ render_history h
            +:+ nl +:+ nl +:+ indent), prompt_tail.
    unfold prepare_prompt, prompt_before_question.
    rewrite !append_assoc. reflexivity. }
  split; [reflexivity|]. split; [reflexivity|]. split; [reflexivity|].
  split.
  { intros key description action rest Hkey ->.
    unfold _menu_options in Hkey. cbn [dict_lookup] in Hkey.
    repeat match type of Hkey with
           | context [String.eqb ?k key] =>
               destruct (String.eqb_spec k key) as [<-|_]
           end;
      try discriminate; injection Hkey as <- <-;
      (split; [set_solver | eexists; reflexivity]). }
  split; [intros; eapply menu_iteration_canned; eassumption|].
  split; [reflexivity|].
  split.
  { intros t h. split; [|split].
    - exact (Hq t "provide a summary of the video content" h).
    - exact (Hq t "provide a 5 question FAQ based on the video content" h).
    - exact (Hq t "provide a table of contents based on the video content" h). }
  intros fuel st key description canned w1 content w2 Hkey Hin Hllm.
  eexists. split; [|split; [|split]].
  - rewrite (menu_iteration_canned fuel st key description canned w1 Hkey Hin).
    apply ask_ai_single_question_reply. exact Hllm.
  - reflexivity.
  - cbn [_chat_history traced]. rewrite last_snoc. intros [=].
  - cbn [trace traced _transcript _chat_history]. unfold ask_events.
    set_solver.
Qed.

Lemma canned_question_is_passed_as_list_witness :
  _chat_history
    (snd (menu_iteration 0
            (session_in_menu [Reply "2"] [Reply "A greeting."])))
  = [(PList ["provide a summary of the video content"], "A greeting.")].
Proof.
  destruct (proj2 (proj2 (proj2 (proj2 (proj2 (proj2 (proj2
              (@canned_question_is_passed_as_list script scripted_world
                 reference_urllib ansi_colorama)))))))
              0 (session_in_menu [Reply "2"] [Reply "A greeting."])
              "2" "Summarize Transcript" "provide a summary of the video content"
              (mkScript [] [] [] [Reply "A greeting."])
              "A greeting." (mkScript [] [] [] [])
              ltac:(vm_compute; reflexivity) ltac:(vm_compute; reflexivity)
              ltac:(vm_compute; reflexivity))
    as (st' & E & Hh & _).
  rewrite E. cbn [snd]. rewrite Hh. vm_compute. reflexivity.
Defined.

(** * Further properties of the code *)

(** ** The menu *)

Section MenuFacts.
Context {W : Type} `{World W} `{Urllib} `{Colorama}.

Lemma dict_lookup_menu_none (choice : string) :
  dict_lookup choice _menu_options = None <-> choice ∉ menu_keys.
Proof.
  unfold menu_keys, _menu_options. cbn [dict_lookup map fst].
  repeat match goal with
         | |- context [String.eqb ?k choice] =>
             destruct (String.eqb_spec k choice) as [<-|?]
         end;
    (split;
     [ try discriminate; intros _ Hin;
       repeat (apply elem_of_cons in Hin as [Hin|Hin]; [congruence|]);
       now apply elem_of_nil in Hin
     | try reflexivity; intros Hn; exfalso; apply Hn;
       repeat first [apply list_elem_of_here | apply list_elem_of_further] ]).
Qed.

(** X1. A choice that is not one of the seven keys, compared as it was
    typed (so also the empty line, or a key with a space around it), is
    answered with the one line "Invalid choice. Please try again.": no
    service is asked, transcript and history stay, and the menu loop goes
    on with its next pass. *)
Theorem invalid_choice_is_reported (fuel : nat) (st : state W)
    (choice : string) (w : W) :
  console_input menu_prompt (world st) = (Reply choice, w) ->
  choice ∉ ["1"; "2"; "3"; "4"; "5"; "6"; "0"] ->
  menu_iteration fuel st
  = (Returned tt,
     traced st w
       (menu_events
        ++ [Input menu_prompt;
            Printed (Fore_RED +:+ "Invalid choice. Please try again.")]))
  /\ _menu_loop (S fuel) st
     = _menu_loop fuel
         (traced st w
            (menu_events
             ++ [Input menu_prompt;
                 Printed (Fore_RED +:+ "Invalid choice. Please try again.")])).
Proof.
  intros Hin Hkey.
  assert (E : menu_iteration fuel st
              = (Returned tt,
                 traced st w
                   (menu_events
                    ++ [Input menu_prompt;
                        Printed (Fore_RED +:+ "Invalid choice. Please try again.")]))).
  { rewrite (menu_iteration_choice fuel st choice w Hin).
    rewrite (proj2 (dict_lookup_menu_none choice) Hkey).
    rewrite print_eq, traced_traced, <- app_assoc. reflexivity. }
  split; [exact E | now apply menu_loop_step].
Qed.

(** X2. Every entry of the menu is called with the number of arguments
    its method takes: the entries with a canned question go to
    [_ask_ai_single_question] with the list, the others to their method
    without argument, so that the dispatcher never raises the
    [TypeError] of a wrong call. *)
Theorem menu_dispatch_fits_the_methods (fuel : nat) (key description : string)
    (action : method) (rest : list string) :
  dict_lookup key _menu_options = Some (description, action, rest) ->
  match rest with
  | [] =>
      call_method (W:=W) fuel action None
      = match action with
        | m_print_transcript => _print_transcript
        | m_chat_with_ai_loop => _chat_with_ai_loop fuel
        | m_change_video => _change_video
        | _ => _exit_app
        end
      /\ action <> m_ask_ai_single_question
  | _ :: _ =>
      call_method (W:=W) fuel action (Some (PList rest))
      = _ask_ai_single_question (PList rest)
  end.
Proof.
  unfold _menu_options. cbn [dict_lookup]. intros Hkey.
  repeat match type of Hkey with
         | context [String.eqb ?k key] =>
             destruct (String.eqb_spec k key) as [<-|_]
         end;
    try discriminate; injection Hkey as <- <- <-;
    first [reflexivity | split; [reflexivity | discriminate]].
Qed.

(** X3. Choosing "0" writes "Exiting..." and raises [SystemExit], which
    leaves the menu loop; neither handler of [run] takes it, so that a
    run whose first choice is "0" ends in [SystemExit] with that line as
    the last thing written and nothing added by [run]. *)
Theorem exit_choice_ends_in_SystemExit (fuel : nat) :
  (forall (st : state W) w,
      console_input menu_prompt (world st) = (Reply "0", w) ->
      _menu_loop (S fuel) st
      = (Raised SystemExit,
         traced st w
           (menu_events
            ++ [Input menu_prompt; Printed (Fore_RED +:+ "Exiting...")])))
  /\ (forall url (st : state W) t st1 w,
        _fetch_video_transcript url st = (Returned t, st1) ->
        console_input menu_prompt (world st1) = (Reply "0", w) ->
        run (S fuel) url st
        = (Raised SystemExit,
           mkState t (_chat_history st1) w
             (trace st1
              ++ menu_events
              ++ [Input menu_prompt; Printed (Fore_RED +:+ "Exiting...")]))).
Proof.
  assert (Hloop : forall (st : state W) w,
             console_input menu_prompt (world st) = (Reply "0", w) ->
             _menu_loop (S fuel) st
             = (Raised SystemExit,
                traced st w
                  (menu_events
                   ++ [Input menu_prompt; Printed (Fore_RED +:+ "Exiting...")]))).
  { intros st w Hin. apply menu_loop_raised.
    rewrite (menu_iteration_choice fuel st "0" w Hin).
    change (dict_lookup "0" _menu_options) with (Some ("Exit", m_exit_app, @nil string)).
    cbn [call_method]. unfold _exit_app.
    erewrite bind_returned by apply print_eq.
    unfold raise. rewrite traced_traced, <- app_assoc. reflexivity. }
  split; [exact Hloop|].
  intros url st t st1 w Hfetch Hin.
  rewrite run_eq, (run_body_fetch_returned (S fuel) url st t st1 Hfetch).
  rewrite (Hloop (mkState t (_chat_history st1) (world st1) (trace st1)) w Hin).
  reflexivity.
Qed.

Lemma menu_loop_not_returned (fuel : nat) (st : state W) (a : unit) :
  fst (_menu_loop fuel st) <> Returned a.
Proof.
  revert st; induction fuel as [|fuel IH]; intros st; [discriminate|].
  simpl. unfold bind at 1.
  destruct (menu_iteration fuel st) as [[[]| |] st']; [apply IH|discriminate..].
Qed.

Lemma run_body_not_returned (fuel : nat) (url : string) (st : state W) (a : unit) :
  fst (run_body fuel url st) <> Returned a.
Proof.
  unfold run_body, bind.
  destruct (_fetch_video_transcript url st) as [[t| |] st1]; try discriminate.
  unfold set_self_transcript. apply menu_loop_not_returned.
Qed.

(** X4. The menu loop has no way out but an exception: on no fuel and in
    no world does [_menu_loop] return, and neither does the body of the
    [try] of [run].  Hence [run] returns only from one of its two
    handlers, the last line written being the farewell or an error
    message; a [SystemExit] that leaves the body goes through [run] as
    it is, with nothing written. *)
Theorem run_ends_in_a_handler_or_SystemExit (fuel : nat) (url : string)
    (st : state W) :
  (forall a, fst (_menu_loop fuel st) <> Returned a)
  /\ (forall a, fst (run_body fuel url st) <> Returned a)
  /\ (fst (run fuel url st) = Returned tt ->
      exists line,
        last (trace (snd (run fuel url st))) = Some (Printed line)
        /\ (line = Fore_RED +:+ nl +:+ "Exiting..."
            \/ exists msg, line = Fore_RED +:+ "Error: " +:+ msg))
  /\ (forall st',
        run_body fuel url st = (Raised SystemExit, st') ->
        run fuel url st = (Raised SystemExit, st')).
Proof.
  split; [intros a; apply menu_loop_not_returned|].
  split; [intros a; apply run_body_not_returned|].
  rewrite run_eq. pose proof (run_body_not_returned fuel url st) as Hnr.
  destruct (run_body fuel url st) as [[[]|[| |cls msg]|] st']; cbn [fst snd] in *.
  - now destruct (Hnr tt).
  - split; [|discriminate]. intros _. eexists. split.
    + unfold traced. cbn [trace]. apply last_snoc.
    + now left.
  - split; [discriminate|]. now intros st'' [= <-].
  - split; [|discriminate]. intros _. eexists. split.
    + unfold traced. cbn [trace]. apply last_snoc.
    + right. now exists msg.
  - split; discriminate.
Qed.

(** X5. [main] uses a non-empty URL of the command line as it is, without
    asking; when the URL is absent or empty it asks once and passes
    whatever line it reads, unchecked, to [run]; a failure of that first
    prompt, of whatever class, gets out of [main], since it is raised
    before the [try] of [run]. *)
Theorem main_takes_or_asks_the_url (fuel : nat) (st : state W) :
  (forall c u, main fuel (Some (String c u)) st = run fuel (String c u) st)
  /\ (forall args url w,
        args = None \/ args = Some "" ->
        console_input url_prompt (world st) = (Reply url, w) ->
        main fuel args st = run fuel url (traced st w [Input url_prompt]))
  /\ (forall args e w,
        args = None \/ args = Some "" ->
        console_input url_prompt (world st) = (Fails e, w) ->
        main fuel args st = (Raised e, traced st w [Input url_prompt])).
Proof.
  split; [reflexivity|]. split.
  - intros args url w [-> | ->] Hin; unfold main;
      (erewrite bind_returned; [reflexivity|]); apply input_reply; exact Hin.
  - intros args e w [-> | ->] Hin; unfold main;
      (erewrite bind_raised; [reflexivity|]); apply input_fails; exact Hin.
Qed.

(** X6. [_fetch_video_transcript] has no guard between its steps.  A URL
    for which [extract_video_id] gives [None] still has the caption
    service asked, for the video [None]; a URL that [urlparse] rejects
    ends the fetch before any request; a failure of the caption service
    ends it before the punctuation model is asked; a failure of the
    punctuation model ends it after "Transcript fetched." was shown.  In
    each case the exception is the one that was raised and the session's
    transcript and history are untouched. *)
Theorem fetch_stops_at_the_first_failure (url : string) (st : state W) :
  (extract_video_id url = Reply None ->
   exists evs,
     trace (snd (_fetch_video_transcript url st))
     = trace st
       ++ [SpinnerStart "Fetching transcript..."; GetTranscript None ["en"]]
       ++ evs)
  /\ (forall e,
        extract_video_id url = Fails e ->
        _fetch_video_transcript url st
        = (Raised e,
           traced st (world st) [SpinnerStart "Fetching transcript..."]))
  /\ (forall vid e w,
        extract_video_id url = Reply vid ->
        api_get_transcript vid ["en"] (world st) = (Fails e, w) ->
        _fetch_video_transcript url st
        = (Raised e,
           traced st w
             [SpinnerStart "Fetching transcript..."; GetTranscript vid ["en"]]))
  /\ (forall vid es w1 e w2,
        extract_video_id url = Reply vid ->
        api_get_transcript vid ["en"] (world st) = (Reply es, w1) ->
        model_restore_punctuation (join " " (map text es)) w1 = (Fails e, w2) ->
        _fetch_video_transcript url st
        = (Raised e,
           traced st w2
             [SpinnerStart "Fetching transcript..."; GetTranscript vid ["en"];
              SpinnerSucceed (Fore_GREEN +:+ "Transcript fetched.");
              SpinnerStart "Adding punctuation...";
              RestorePunctuation (join " " (map text es))])).
Proof.
  split; [|split; [|split]].
  - intros Hid.
    unfold _fetch_video_transcript, get_transcript, add_punctuation. unfold_m.
    rewrite Hid. red_m.
    destruct (api_get_transcript None ["en"] (world st)) as [[es|x] w1].
    + red_m.
      destruct (model_restore_punctuation (join " " (map text es)) w1)
        as [[p|x] w2]; red_m; rewrite <- !app_assoc;
        eexists; cbn [app]; reflexivity.
    + red_m. exists []. rewrite <- !app_assoc. reflexivity.
  - intros e Hid. unfold _fetch_video_transcript. unfold_m.
    rewrite Hid. reflexivity.
  - intros vid e w Hid Hapi.
    unfold _fetch_video_transcript, get_transcript. unfold_m.
    rewrite Hid. red_m. rewrite Hapi. red_m. rewrite <- !app_assoc. reflexivity.
  - intros vid es w1 e w2 Hid Hapi Hmodel.
    unfold _fetch_video_transcript, get_transcript, add_punctuation. unfold_m.
    rewrite Hid. red_m. rewrite Hapi. red_m. rewrite Hmodel. red_m.
    rewrite <- !app_assoc. reflexivity.
Qed.

End MenuFacts.

(** ** The identifier of a video *)

Section ExtractFacts.

Lemma parse_qs_model_nonempty (qs k : string) :
  UrllibModel.parse_qs_model qs !! k <> Some [].
Proof.
  unfold UrllibModel.parse_qs_model.
  assert (Hfold : forall (pairs : list (string * string))
                         (m : gmap string (list string)),
             map_Forall (fun _ l => l <> []) m ->
             map_Forall (fun _ l => l <> [])
               (fold_left
                  (fun parsed_result '(name, value) =>
                     match parsed_result !! name with
                     | Some l => <[name := l ++ [value]]> parsed_result
                     | None => <[name := [value]]> parsed_result
                     end) pairs m)).
  { induction pairs as [|[name value] pairs IH]; intros m Hm; [exact Hm|].
    cbn [fold_left]. apply IH.
    destruct (m !! name) as [l|]; apply map_Forall_insert_2; try exact Hm.
    - destruct l; discriminate.
    - discriminate. }
  intros Hk.
  apply (map_Forall_lookup_1 _ _ _ _
           (Hfold (UrllibModel.parse_qsl qs) ∅ (map_Forall_empty _)) Hk).
  reflexivity.
Qed.

(** X7. Given that [parse_qs] never maps a key to an empty list (as the
    reference instance does not), the indexing [[0]] never fails:
    [extract_video_id] raises exactly when [urlparse] raises, with the
    same exception, and returns otherwise; for a [youtu.be] URL what it
    returns is never [None], even when the path is empty. *)
Theorem extract_video_id_raises_only_with_urlparse :
  (forall (U : Urllib),
      (forall qs k, parse_qs qs !! k <> Some []) ->
      forall url,
        (forall e, extract_video_id url = Fails e <-> urlparse url = Fails e)
        /\ (forall p, urlparse url = Reply p ->
                      exists r, extract_video_id url = Reply r)
        /\ (forall p, urlparse url = Reply p ->
                      hostname p = Some "youtu.be" ->
                      extract_video_id url <> Reply None
                      /\ (path p = "" \/ path p = "/" ->
                          extract_video_id url = Reply (Some ""))))
  /\ (forall qs k, @parse_qs reference_urllib qs !! k <> Some []).
Proof.
  split; [|exact parse_qs_model_nonempty].
  intros U Hne url. unfold extract_video_id.
  destruct (urlparse url) as [p|x] eqn:Hp.
  - assert (Hr : exists r,
               (if decide (hostname p = Some "www.youtube.com")
                then match
                       match parse_qs (query p) !! "v" with
                       | Some l => map Some l
                       | None => [None]
                       end
                     with
                     | x :: _ => Reply x
                     | [] => Fails (Exception "IndexError" "list index out of range")
                     end
                else if decide (hostname p = Some "youtu.be")
                     then Reply (Some (slice_from_1 (path p)))
                     else Reply None) = Reply r).
    { destruct (decide (hostname p = Some "www.youtube.com")).
      - destruct (parse_qs (query p) !! "v") as [[|v vs]|] eqn:Hv.
        + now destruct (Hne (query p) "v").
        + now eexists.
        + now eexists.
      - destruct (decide (hostname p = Some "youtu.be")); now eexists. }
    destruct Hr as [r Hr]. rewrite Hr. split; [|split].
    + intros e. split; discriminate.
    + intros p' _. now exists r.
    + intros p' [= <-] Hhost. revert Hr.
      rewrite decide_False by (rewrite Hhost; discriminate).
      rewrite decide_True by exact Hhost. intros [= <-]. split; [discriminate|].
      intros [-> | ->]; reflexivity.
  - split; [|split].
    + intros e. split; intros [= ->]; reflexivity.
    + discriminate.
    + discriminate.
Qed.

End ExtractFacts.

(** ** The chat sub-loop *)

Section ChatFacts.
Context {W : Type} `{World W} `{Urllib} `{Colorama}.





End ChatFacts.

Section ConversationFacts.
Context `{Urllib} `{Colorama}.

Lemma chat_while_conversation (qa : list (string * string))
    (later_keys later_replies : list (reply string))
    (captions : list (reply (list (caption nat))))
    (punctuations : list (reply string)) :
  Forall (fun x => lower (fst x) <> "exit") qa ->
  forall (t : string) (h : list (pyval * string)) (tr : list event),
  exists evs,
    chat_while (S (length qa))
      (mkState t h
         (conversation qa later_keys later_replies captions punctuations) tr)
    = (Returned tt,
       mkState t (h ++ turns_of qa)
         (mkScript later_keys captions punctuations later_replies)
         (tr ++ evs))
    /\ count_invocations evs = length qa.
Proof.
  induction qa as [|[q c] qa IH]; intros Hqa t h tr.
  - exists [Input chat_prompt]. split; [|reflexivity].
    erewrite chat_while_exit; [|reflexivity|reflexivity].
    unfold traced, turns_of. cbn [map _transcript _chat_history trace].
    now rewrite app_nil_r.
  - apply Forall_cons in Hqa as [Hq Hqa]. cbn [fst] in Hq.
    cbn [length].
    erewrite (chat_while_ask (S (length qa)) _ q _ c);
      [|reflexivity|exact Hq|reflexivity].
    cbn [_transcript _chat_history trace].
    destruct (IH Hqa t (h ++ [(PStr q, strip c)])
                (tr ++ [Input chat_prompt]
                 ++ ask_events (prepare_prompt t (PStr q) h)
                 ++ [Printed (Fore_GREEN +:+ nl +:+ "Answer:" +:+ nl +:+ " "
                              +:+ strip c)]))
      as (evs & E & Hcount).
    eexists. split.
    + etransitivity; [exact E|]. f_equal. f_equal.
      * unfold turns_of. cbn [map fst snd]. now rewrite <- app_assoc.
      * rewrite <- app_assoc. reflexivity.
    + rewrite !count_invocations_app, Hcount. reflexivity.
Qed.

(** X9. A whole conversation: when the terminal gives n questions, none
    of them the keyword, and then "exit", and the backend answers each,
    the sub-loop on fuel n + 1 returns to the menu; the history has
    gained exactly the n turns (question, trimmed answer) in the order
    asked, the transcript is the same, n requests went to the assistant,
    and the lines and replies that come later are still unread. *)
Theorem a_conversation_appends_its_turns (qa : list (string * string))
    (later_keys later_replies : list (reply string))
    (captions : list (reply (list (caption nat))))
    (punctuations : list (reply string))
    (t : string) (h : list (pyval * string)) (tr : list event) :
  Forall (fun x => lower (fst x) <> "exit") qa ->
  exists evs,
    _chat_with_ai_loop (S (length qa))
      (mkState t h
         (conversation qa later_keys later_replies captions punctuations) tr)
    = (Returned tt,
       mkState t (h ++ turns_of qa)
         (mkScript later_keys captions punctuations later_replies)
         (tr ++ evs))
    /\ count_invocations evs = length qa.
Proof.
  intros Hqa.
  destruct (chat_while_conversation qa later_keys later_replies captions
              punctuations Hqa t h tr) as (evs & E & Hcount).
  exists evs. split; [|exact Hcount].
  rewrite chat_with_ai_loop_eq, E. reflexivity.
Qed.

End ConversationFacts.

(** ** What the assistant is shown *)

Section PromptFacts.
Context {W : Type} `{World W} `{Urllib} `{Colorama}.

Lemma render_history_elem (turn : pyval * string) (h : list (pyval * string)) :
  turn ∈ h -> occurs_in (render_turn turn) (render_history h).
Proof.
  intros (h1 & h2 & ->)%list_elem_of_split.
  unfold render_history. rewrite map_app. cbn [map]. rewrite join_middle.
  apply occurs_in_mid.
Qed.

Lemma prompt_has_turn (t : string) (q : pyval) (turn : pyval * string)
    (h : list (pyval * string)) :
  turn ∈ h -> occurs_in (render_turn turn) (prepare_prompt t q h).
Proof.
  intros Hin. unfold prepare_prompt.
  do 3 apply occurs_in_append_l. apply occurs_in_append_r.
  now apply render_history_elem.
Qed.

Lemma chat_with_ai_trace (t : string) (q : pyval) (st : state W) :
  exists evs,
    trace (snd (_chat_with_ai t q st))
    = trace st
      ++ [SpinnerStart "Asking AI...";
          LLMInvoke (prepare_prompt t q (_chat_history st))]
      ++ evs.
Proof.
  destruct (llm_invoke_content (prepare_prompt t q (_chat_history st)) (world st))
    as [[content|e] w] eqn:E.
  - rewrite (chat_with_ai_reply st t q content w E). cbn [snd trace].
    unfold ask_events. now eexists [_].
  - rewrite (chat_with_ai_fails st t q e w E). now exists [].
Qed.

Lemma ask_ai_single_question_trace (q : pyval) (st : state W) :
  exists evs,
    trace (snd (_ask_ai_single_question q st))
    = trace st
      ++ [SpinnerStart "Asking AI...";
          LLMInvoke (prepare_prompt (_transcript st) q (_chat_history st))]
      ++ evs.
Proof.
  destruct (llm_invoke_content
              (prepare_prompt (_transcript st) q (_chat_history st)) (world st))
    as [[content|e] w] eqn:E.
  - rewrite (ask_ai_single_question_reply st q content w E). cbn [snd trace].
    unfold ask_events. eexists [_; _]. reflexivity.
  - rewrite (ask_ai_single_question_fails st q e w E). now exists [].
Qed.

(** X10. The conversation is carried from one question to the next: once
    a round-trip has returned, the prompt of the following round-trip,
    whatever its question and transcript, is built on the history with
    the new turn at its end, and has in it, rendered as "Q: ... A: ...",
    that turn and every turn that was there before. *)
Theorem every_turn_reaches_the_next_prompt (t : string) (q : pyval)
    (st : state W) (content : string) (w : W) :
  llm_invoke_content (prepare_prompt t q (_chat_history st)) (world st)
    = (Reply content, w) ->
  forall t2 q2,
    let st1 := snd (_chat_with_ai t q st) in
    let prompt2 :=
      prepare_prompt t2 q2 (_chat_history st ++ [(q, strip content)]) in
    (exists evs,
        trace (snd (_chat_with_ai t2 q2 st1))
        = trace st1 ++ [SpinnerStart "Asking AI..."; LLMInvoke prompt2] ++ evs)
    /\ occurs_in ("Q: " +:+ format_value q +:+ nl +:+ "A: " +:+ strip content)
                 prompt2
    /\ (forall turn, turn ∈ _chat_history st ->
                     occurs_in (render_turn turn) prompt2).
Proof.
  intros E t2 q2 st1 prompt2. split; [|split].
  - destruct (chat_with_ai_trace t2 q2 st1) as [evs Hevs]. exists evs.
    rewrite Hevs. unfold st1, prompt2.
    rewrite (chat_with_ai_reply st t q content w E). reflexivity.
  - apply (prompt_has_turn t2 q2 (q, strip content)).
    apply elem_of_app. right. apply list_elem_of_here.
  - intros turn Hin. apply prompt_has_turn. apply elem_of_app. now left.
Qed.

(** X11. "Change video" does not start a new conversation: after it has
    completed, the prompt of the next canned question is built from the
    new transcript and still has in it every turn of the history from
    before, those about the earlier video. *)
Theorem change_video_keeps_the_conversation (st st' : state W)
    (turn : pyval * string) (q : pyval) :
  _change_video st = (Returned tt, st') ->
  turn ∈ _chat_history st ->
  exists prompt evs,
    trace (snd (_ask_ai_single_question q st'))
    = trace st' ++ [SpinnerStart "Asking AI..."; LLMInvoke prompt] ++ evs
    /\ prompt = prepare_prompt (_transcript st') q (_chat_history st)
    /\ occurs_in (_transcript st') prompt
    /\ occurs_in (render_turn turn) prompt.
Proof.
  intros Hcv Hin.
  destruct (change_video_inversion st st' Hcv)
    as (url & w0 & vid & es & w1 & p & w2 & _ & _ & _ & _ & ->).
  destruct (ask_ai_single_question_trace q
              (mkState (line_breaks p) (_chat_history st) w2
                 (trace st ++ [Input url_prompt]
                  ++ fetch_events vid (join " " (map text es)))))
    as [evs Hevs].
  eexists _, evs. split; [exact Hevs|]. cbn [_transcript _chat_history].
  split; [reflexivity|]. split; [apply occurs_in_mid|].
  now apply prompt_has_turn.
Qed.

End PromptFacts.

(** ** Invariants that depend on the transcript and on the answers *)

Section StripFacts.

Lemma lstrip_id (s : string) :
  (forall c, first_char s = Some c -> isspace c = false) -> lstrip s = s.
Proof.
  destruct s as [|c s]; [reflexivity|]. intros Hc. simpl.
  now rewrite (Hc c eq_refl).
Qed.

Lemma rstrip_id (s : string) :
  (forall c, last_char s = Some c -> isspace c = false) -> rstrip s = s.
Proof.
  induction s as [|c s IH]; [reflexivity|]. intros Hc.
  destruct s as [|d s'].
  - simpl. now rewrite (Hc c eq_refl).
  - change (rstrip (String c (String d s')))
      with (match rstrip (String d s') with
            | EmptyString => if isspace c then EmptyString else String c EmptyString
            | r => String c r
            end).
    rewrite IH; [reflexivity|]. intros x Hx. apply Hc. exact Hx.
Qed.

Lemma strip_idempotent (s : string) : strip (strip s) = strip s.
Proof.
  destruct (strip_spec s) as (l & r & _ & _ & _ & Hfirst & Hlast).
  unfold strip at 1. rewrite (lstrip_id _ Hfirst). now apply rstrip_id.
Qed.

End StripFacts.

Section MethodInvariants.
Context {W : Type} `{World W} `{Urllib} `{Colorama}.

#[export] Instance answers_trimmed_invariant :
  MethodInvariant (W:=W) (fun st st' => answers_trimmed st -> answers_trimmed st').
Proof.
  split.
  - split; [intros st; auto | intros st1 st2 st3; auto].
  - intros st st' _ Hh. unfold answers_trimmed. now rewrite Hh.
  - intros st st' q content _ Hh. unfold answers_trimmed. rewrite Hh.
    intros Hst. apply Forall_app. split; [exact Hst|].
    apply Forall_singleton. apply strip_idempotent.
  - intros st st' p _ Hh. unfold answers_trimmed. now rewrite Hh.
Qed.

#[export] Instance transcript_formatted_invariant :
  MethodInvariant (W:=W)
    (fun st st' => transcript_formatted st -> transcript_formatted st').
Proof.
  split.
  - split; [intros st; auto | intros st1 st2 st3; auto].
  - intros st st' Ht _. unfold transcript_formatted. now rewrite Ht.
  - intros st st' q content Ht _. unfold transcript_formatted. now rewrite Ht.
  - intros st st' p Ht _ _. unfold transcript_formatted. rewrite Ht.
    apply line_breaks_clean.
Qed.

Context (R : relation (state W)) `{!MethodInvariant R}.

Lemma holds_frame {A} (c : M W A) :
  (forall st, _transcript (snd (c st)) = _transcript st
              /\ _chat_history (snd (c st)) = _chat_history st) ->
  preserves R c.
Proof. intros Hc st. destruct (Hc st). now apply mi_frame. Qed.

Lemma holds_bind {A B} (c : M W A) (k : A -> M W B) :
  preserves R c -> (forall a, preserves R (k a)) -> preserves R (bind c k).
Proof.
  intros Hc Hk st. unfold bind. specialize (Hc st).
  destruct (c st) as [[a| |] st']; cbn [snd] in *; [|assumption..].
  etransitivity; [exact Hc | apply Hk].
Qed.

Lemma holds_try_except {A} (body : M W A) (handler : exn -> option (M W A)) :
  preserves R body ->
  (forall e h, handler e = Some h -> preserves R h) ->
  preserves R (try_except body handler).
Proof.
  intros Hb Hh st. unfold try_except. specialize (Hb st).
  destruct (body st) as [[a|e|] st']; cbn [snd] in *; [assumption| |assumption].
  destruct (handler e) as [h|] eqn:E; [|assumption].
  etransitivity; [exact Hb | eapply Hh, E].
Qed.

Lemma holds_ret {A} (a : A) : preserves R (ret a).
Proof. intros st. reflexivity. Qed.

Lemma holds_out_of_fuel {A} : preserves R (out_of_fuel (A:=A)).
Proof. intros st. reflexivity. Qed.

Lemma holds_raise {A} (e : exn) : preserves R (raise (A:=A) e).
Proof. intros st. reflexivity. Qed.

Lemma holds_print (args : list string) : preserves R (print args).
Proof. apply holds_frame. intros st. split; reflexivity. Qed.

Lemma holds_input (prompt : string) : preserves R (input prompt).
Proof.
  apply holds_frame. intros st. unfold input, call.
  destruct (console_input prompt (world st)) as [[a|x] w]; split; reflexivity.
Qed.

Lemma holds_get_self_transcript : preserves R get_self_transcript.
Proof. intros st. reflexivity. Qed.

Lemma holds_print_menu : preserves R print_menu.
Proof.
  apply holds_frame. intros st. rewrite print_menu_eq. split; reflexivity.
Qed.

Lemma holds_chat_with_ai t q : preserves R (_chat_with_ai t q).
Proof.
  intros st.
  destruct (llm_invoke_content (prepare_prompt t q (_chat_history st)) (world st))
    as [[content|e] w] eqn:E.
  - rewrite (chat_with_ai_reply st t q content w E). cbn [snd].
    eapply mi_turn; reflexivity.
  - rewrite (chat_with_ai_fails st t q e w E). cbn [snd].
    apply mi_frame; reflexivity.
Qed.

(** A transcript is installed only as it comes out of a fetch. *)
Lemma holds_fetch_then {B} (url : string) (k : string -> M W B) :
  (forall p, preserves R (k (line_breaks p))) ->
  preserves R (bind (_fetch_video_transcript url) k).
Proof.
  intros Hk st. unfold bind.
  destruct (fetch_quiet st url) as (evs & Hst & _).
  destruct (_fetch_video_transcript url st) as [[t| |] st1] eqn:Hfetch;
    cbn [snd] in *.
  - destruct (fetch_inversion st url t st1 Hfetch)
      as (vid & es & w1 & p & w2 & _ & _ & _ & -> & _).
    transitivity st1; [|apply Hk].
    rewrite Hst. apply mi_frame; reflexivity.
  - rewrite Hst. apply mi_frame; reflexivity.
  - rewrite Hst. apply mi_frame; reflexivity.
Qed.

Lemma holds_install (p : string) : preserves R (set_self_transcript (line_breaks p)).
Proof. intros st. eapply mi_install; reflexivity. Qed.

Lemma holds_ask_ai_single_question q : preserves R (_ask_ai_single_question q).
Proof.
  unfold _ask_ai_single_question.
  apply holds_bind; [apply holds_get_self_transcript|]. intros t.
  apply holds_bind; [apply holds_chat_with_ai|]. intros a. apply holds_print.
Qed.

Lemma holds_print_transcript : preserves R _print_transcript.
Proof.
  unfold _print_transcript.
  apply holds_bind; [apply holds_get_self_transcript|]. intros t.
  apply holds_print.
Qed.

Lemma holds_change_video : preserves R _change_video.
Proof.
  unfold _change_video.
  apply holds_bind; [apply holds_input|]. intros url.
  apply holds_fetch_then. intros p. apply holds_install.
Qed.

Lemma holds_exit_app : preserves R _exit_app.
Proof.
  unfold _exit_app. apply holds_bind; [apply holds_print|]. intros _.
  apply holds_raise.
Qed.

Lemma holds_chat_while fuel : preserves R (chat_while fuel).
Proof.
  induction fuel as [|fuel IH]; simpl; [apply holds_out_of_fuel|].
  apply holds_bind; [apply holds_input|]. intros question.
  destruct (decide (lower question = "exit")); [apply holds_ret|].
  apply holds_bind; [apply holds_get_self_transcript|]. intros t.
  apply holds_bind; [apply holds_chat_with_ai|]. intros a.
  apply holds_bind; [apply holds_print | intros _; exact IH].
Qed.

Lemma holds_chat_with_ai_loop fuel : preserves R (_chat_with_ai_loop fuel).
Proof.
  unfold _chat_with_ai_loop. apply holds_try_except; [apply holds_chat_while|].
  intros [| |cls msg] h [= <-]. apply holds_print.
Qed.

Lemma holds_call_method fuel action arg :
  preserves R (call_method fuel action arg).
Proof.
  destruct action, arg as [a|]; simpl;
    first [ apply holds_print_transcript | apply holds_ask_ai_single_question
          | apply holds_chat_with_ai_loop | apply holds_change_video
          | apply holds_exit_app | apply holds_raise ].
Qed.

Lemma holds_menu_iteration fuel : preserves R (menu_iteration fuel).
Proof.
  unfold menu_iteration. apply holds_bind; [apply holds_print_menu|]. intros _.
  apply holds_bind; [apply holds_input|]. intros choice.
  destruct (dict_lookup choice _menu_options)
    as [[[description action] question]|]; [|apply holds_print].
  destruct question; apply holds_call_method.
Qed.

Lemma holds_menu_loop fuel : preserves R (_menu_loop fuel).
Proof.
  induction fuel as [|fuel IH]; simpl; [apply holds_out_of_fuel|].
  apply holds_bind; [apply holds_menu_iteration | intros _; exact IH].
Qed.

Lemma holds_run fuel url : preserves R (run fuel url).
Proof.
  unfold run. apply holds_try_except.
  - apply holds_fetch_then. intros p.
    apply holds_bind; [apply holds_install|]. intros _. apply holds_menu_loop.
  - intros [| |cls msg] h [= <-]; apply holds_print.
Qed.

Lemma holds_main fuel args_url : preserves R (main fuel args_url).
Proof.
  unfold main. apply holds_bind; [|intros url; apply holds_run].
  destruct args_url as [[|c u]|];
    first [apply holds_input | apply holds_ret].
Qed.

End MethodInvariants.

Section SessionShape.
Context {W : Type} `{World W} `{Urllib} `{Colorama}.

(** X12. The answers kept in the history are trimmed, and stay so: from a
    state where every answer is free of whitespace at its ends, the chat
    sub-loop, the menu loop and [run] end in such a state, however they
    end; a session started by [main] has only such answers. *)
Theorem answers_in_the_history_are_trimmed :
  (forall s, strip (strip s) = strip s)
  /\ (forall fuel (st : state W),
        answers_trimmed st -> answers_trimmed (snd (_chat_with_ai_loop fuel st)))
  /\ (forall fuel (st : state W),
        answers_trimmed st -> answers_trimmed (snd (_menu_loop fuel st)))
  /\ (forall fuel url (st : state W),
        answers_trimmed st -> answers_trimmed (snd (run fuel url st)))
  /\ (forall fuel args_url (w : W),
        answers_trimmed (snd (main fuel args_url (new_app w)))).
Proof.
  pose (R := fun st st' : state W => answers_trimmed st -> answers_trimmed st').
  split; [exact strip_idempotent|].
  split; [intros fuel st; exact (holds_chat_with_ai_loop R fuel st)|].
  split; [intros fuel st; exact (holds_menu_loop R fuel st)|].
  split; [intros fuel url st; exact (holds_run R fuel url st)|].
  intros fuel args_url w.
  apply (holds_main R fuel args_url (new_app w)).
  apply Forall_nil_2.
Qed.

(** X13. The session transcript is always one that went through the
    formatting pass: from a state whose transcript has no period or comma
    followed by a space, every menu action, the menu loop and [run] end
    in such a state, however they end; a session started by [main] never
    has another transcript. *)
Theorem the_transcript_is_always_formatted :
  (forall fuel action arg (st : state W),
      transcript_formatted st ->
      transcript_formatted (snd (call_method fuel action arg st)))
  /\ (forall fuel (st : state W),
        transcript_formatted st -> transcript_formatted (snd (_menu_loop fuel st)))
  /\ (forall fuel url (st : state W),
        transcript_formatted st -> transcript_formatted (snd (run fuel url st)))
  /\ (forall fuel args_url (w : W),
        transcript_formatted (snd (main fuel args_url (new_app w)))).
Proof.
  pose (R := fun st st' : state W =>
               transcript_formatted st -> transcript_formatted st').
  split; [intros fuel action arg st; exact (holds_call_method R fuel action arg st)|].
  split; [intros fuel st; exact (holds_menu_loop R fuel st)|].
  split; [intros fuel url st; exact (holds_run R fuel url st)|].
  intros fuel args_url w.
  apply (holds_main R fuel args_url (new_app w)).
  split; reflexivity.
Qed.

End SessionShape.

(** ** Which choice touches which attribute *)

Section Frames.
Context {W : Type} `{World W} `{Urllib} `{Colorama}.

Lemma ask_keeps_transcript (q : pyval) (st : state W) :
  _transcript (snd (_ask_ai_single_question q st)) = _transcript st.
Proof.
  destruct (llm_invoke_content
              (prepare_prompt (_transcript st) q (_chat_history st)) (world st))
    as [[content|e] w] eqn:E.
  - now rewrite (ask_ai_single_question_reply st q content w E).
  - now rewrite (ask_ai_single_question_fails st q e w E).
Qed.

Lemma chat_while_keeps_transcript (fuel : nat) (st : state W) :
  _transcript (snd (chat_while fuel st)) = _transcript st.
Proof.
  revert st; induction fuel as [|fuel IH]; intros st; [reflexivity|].
  destruct (console_input chat_prompt (world st)) as [[question|e] w] eqn:Hin.
  2:{ now rewrite (chat_while_input_fails fuel st e w Hin). }
  destruct (decide (lower question = "exit")) as [Hq|Hq].
  { now rewrite (chat_while_exit fuel st question w Hin Hq). }
  destruct (llm_invoke_content
              (prepare_prompt (_transcript st) (PStr question) (_chat_history st)) w)
    as [[content|e] w2] eqn:Hllm.
  - rewrite (chat_while_ask fuel st question w content w2 Hin Hq Hllm).
    now rewrite IH.
  - now rewrite (chat_while_ask_fails fuel st question w e w2 Hin Hq Hllm).
Qed.

Lemma chat_with_ai_loop_keeps_transcript (fuel : nat) (st : state W) :
  _transcript (snd (_chat_with_ai_loop fuel st)) = _transcript st.
Proof.
  rewrite chat_with_ai_loop_eq.
  pose proof (chat_while_keeps_transcript fuel st) as Hk.
  destruct (chat_while fuel st) as [[[]|[| |cls msg]|] st']; exact Hk.
Qed.

Lemma change_video_keeps_history (st : state W) :
  _chat_history (snd (_change_video st)) = _chat_history st.
Proof.
  unfold _change_video. unfold bind at 1. unfold input, call.
  destruct (console_input _ (world st)) as [[url|x] w0]; [|reflexivity].
  unfold bind.
  match goal with
  | |- context [_fetch_video_transcript url ?s] =>
      destruct (fetch_quiet s url) as (evs & Hst & _);
      destruct (_fetch_video_transcript url s) as [[t| |] st1]
  end; cbn [snd] in *; rewrite Hst; reflexivity.
Qed.

(** X14. Of the choices of the menu only "6" (change video) can replace
    the session transcript, and only "2", "3", "4" and "5" (the canned
    questions and the chat) can add to the history: after one pass of the
    menu with any other choice, valid or not, and however the pass ends,
    the attribute is what it was.  The chat sub-loop, however long, never
    replaces the transcript. *)
Theorem what_a_choice_can_touch (fuel : nat) (st : state W)
    (choice : string) (w : W) :
  console_input menu_prompt (world st) = (Reply choice, w) ->
  (choice <> "6" ->
   _transcript (snd (menu_iteration fuel st)) = _transcript st)
  /\ (choice ∉ ["2"; "3"; "4"; "5"] ->
      _chat_history (snd (menu_iteration fuel st)) = _chat_history st)
  /\ (forall fuel' (st' : state W),
        _transcript (snd (_chat_with_ai_loop fuel' st')) = _transcript st').
Proof.
  intros Hin.
  split; [|split; [|exact chat_with_ai_loop_keeps_transcript]];
    rewrite (menu_iteration_choice fuel st choice w Hin);
    unfold _menu_options; cbn [dict_lookup];
    repeat match goal with
           | |- context [String.eqb ?k choice] =>
               destruct (String.eqb_spec k choice) as [<-|?]
           end;
    intros Hc; cbn [call_method];
    try solve [exfalso; apply Hc;
               first [reflexivity
                     | repeat first [apply list_elem_of_here
                                    | apply list_elem_of_further]]];
    first [ rewrite print_transcript_eq; reflexivity
          | rewrite ask_keeps_transcript; reflexivity
          | rewrite chat_with_ai_loop_keeps_transcript; reflexivity
          | rewrite change_video_keeps_history; reflexivity
          | reflexivity ].
Qed.

End Frames.

(** ** The further properties on scripted sessions *)

Ltac not_in_list :=
  let Hin := fresh "Hin" in
  intros Hin;
  repeat (apply elem_of_cons in Hin as [Hin|Hin]; [discriminate Hin|]);
  now apply elem_of_nil in Hin.

Lemma invalid_choice_is_reported_witness :
  fst (menu_iteration 0 (session_in_menu [Reply " 1"] [])) = Returned tt
  /\ _transcript (snd (menu_iteration 0 (session_in_menu [Reply " 1"] [])))
     = "Hello world." +:+ nl +:+ "How are you?".
Proof.
  assert (Hkey : " 1" ∉ ["1"; "2"; "3"; "4"; "5"; "6"; "0"]) by not_in_list.
  destruct (@invalid_choice_is_reported script scripted_world reference_urllib
              ansi_colorama 0 (session_in_menu [Reply " 1"] []) " 1"
              (mkScript [] [] [] []) eq_refl Hkey) as [E _].
  rewrite E. split; reflexivity.
Defined.

Lemma menu_dispatch_fits_the_methods_witness :
  call_method (W:=script) 0 m_ask_ai_single_question
    (Some (PList ["provide a 5 question FAQ based on the video content"]))
  = _ask_ai_single_question
      (PList ["provide a 5 question FAQ based on the video content"]).
Proof.
  exact (@menu_dispatch_fits_the_methods script scripted_world reference_urllib
           ansi_colorama 0 "4" "FAQ" m_ask_ai_single_question
           ["provide a 5 question FAQ based on the video content"] eq_refl).
Defined.

Lemma exit_choice_ends_in_SystemExit_witness :
  fst (run 1 "https://youtu.be/XYZ987" (fresh_session [Reply "0"]))
  = Raised SystemExit.
Proof.
  erewrite (proj2 (@exit_choice_ends_in_SystemExit script scripted_world
                     reference_urllib ansi_colorama 0));
    [reflexivity | vm_compute; reflexivity | vm_compute; reflexivity].
Defined.

Lemma run_ends_in_a_handler_or_SystemExit_witness :
  exists line,
    last (trace (snd (run 3 "https://youtu.be/XYZ987"
                        (new_app (mkScript [] [] [] [])))))
    = Some (Printed line)
    /\ (line = Fore_RED +:+ nl +:+ "Exiting..."
        \/ exists msg, line = Fore_RED +:+ "Error: " +:+ msg).
Proof.
  apply (proj1 (proj2 (proj2 (@run_ends_in_a_handler_or_SystemExit script
                         scripted_world reference_urllib ansi_colorama
                         3 "https://youtu.be/XYZ987"
                         (new_app (mkScript [] [] [] [])))))).
  vm_compute. reflexivity.
Defined.

Lemma main_takes_or_asks_the_url_witness :
  main 2 (Some "") (fresh_session [Reply "https://youtu.be/XYZ987"; Reply "0"])
  = run 2 "https://youtu.be/XYZ987"
      (traced (fresh_session [Reply "https://youtu.be/XYZ987"; Reply "0"])
         (mkScript [Reply "0"] [Reply example_captions]
            [Reply "Hello world. How are you?"] [])
         [Input url_prompt]).
Proof.
  apply (proj1 (proj2 (@main_takes_or_asks_the_url script scripted_world
                         reference_urllib ansi_colorama 2
                         (fresh_session [Reply "https://youtu.be/XYZ987"; Reply "0"])))).
  - right. reflexivity.
  - reflexivity.
Defined.

Lemma fetch_stops_at_the_first_failure_witness :
  (exists evs,
      trace (snd (_fetch_video_transcript "youtube.com/watch?v=ABC123"
                    (fresh_session [])))
      = [SpinnerStart "Fetching transcript..."; GetTranscript None ["en"]] ++ evs)
  /\ fst (_fetch_video_transcript "https://[youtu.be/XYZ987" (fresh_session []))
     = Raised (Exception "ValueError" "Invalid IPv6 URL").
Proof.
  pose proof (@fetch_stops_at_the_first_failure script scripted_world
                reference_urllib ansi_colorama) as T.
  split.
  - apply (proj1 (T "youtube.com/watch?v=ABC123" (fresh_session []))).
    vm_compute. reflexivity.
  - rewrite (proj1 (proj2 (T "https://[youtu.be/XYZ987" (fresh_session [])))
               (Exception "ValueError" "Invalid IPv6 URL"));
      [reflexivity | vm_compute; reflexivity].
Defined.

Lemma extract_video_id_raises_only_with_urlparse_witness :
  @extract_video_id reference_urllib "https://youtu.be" = Reply (Some "")
  /\ @extract_video_id reference_urllib "https://youtu.be/" = Reply (Some "").
Proof.
  pose proof extract_video_id_raises_only_with_urlparse as [T Hne].
  split.
  - apply (proj2 (proj2 (T reference_urllib Hne "https://youtu.be"))
             (mkParseResult (Some "youtu.be") "" ""));
      [vm_compute; reflexivity | reflexivity | left; reflexivity].
  - apply (proj2 (proj2 (T reference_urllib Hne "https://youtu.be/"))
             (mkParseResult (Some "youtu.be") "/" ""));
      [vm_compute; reflexivity | reflexivity | right; reflexivity].
Defined.


Lemma a_conversation_appends_its_turns_witness :
  exists evs,
    _chat_with_ai_loop 3
      (mkState "Hello world." []
         (conversation [("who speaks?", " A host. "); ("EXIT?", "No.")]
            [Reply "0"] [] [] []) [])
    = (Returned tt,
       mkState "Hello world."
         [(PStr "who speaks?", "A host."); (PStr "EXIT?", "No.")]
         (mkScript [Reply "0"] [] [] []) evs)
    /\ count_invocations evs = 2.
Proof.
  apply (@a_conversation_appends_its_turns ansi_colorama
           [("who speaks?", " A host. "); ("EXIT?", "No.")]
           [Reply "0"] [] [] [] "Hello world." [] []).
  repeat constructor; intros E; vm_compute in E; discriminate E.
Defined.

Lemma every_turn_reaches_the_next_prompt_witness :
  occurs_in ("Q: who speaks?" +:+ nl +:+ "A: A host.")
    (prepare_prompt "Hello world." (PStr "and then?")
       [(PStr "what is said?", "A greeting."); (PStr "who speaks?", "A host.")]).
Proof.
  apply (proj1 (proj2
           (@every_turn_reaches_the_next_prompt script scripted_world
              ansi_colorama
              "Hello world." (PStr "who speaks?")
              (session_with_history [] [Reply " A host. "]) " A host. "
              (mkScript [] [Reply example_captions]
                 [Reply "Bye now, friends. See you."] [])
              eq_refl "Hello world." (PStr "and then?")))).
Defined.

Lemma change_video_keeps_the_conversation_witness :
  exists prompt evs,
    trace (snd (_ask_ai_single_question (PStr "and now?")
                  (snd (_change_video
                          (session_with_history [Reply "https://youtu.be/XYZ987"] [])))))
    = trace (snd (_change_video
                    (session_with_history [Reply "https://youtu.be/XYZ987"] [])))
      ++ [SpinnerStart "Asking AI..."; LLMInvoke prompt] ++ evs
    /\ prompt
       = prepare_prompt
           (_transcript (snd (_change_video
                                (session_with_history
                                   [Reply "https://youtu.be/XYZ987"] []))))
           (PStr "and now?") [(PStr "what is said?", "A greeting.")]
    /\ occurs_in
         (_transcript (snd (_change_video
                              (session_with_history
                                 [Reply "https://youtu.be/XYZ987"] []))))
         prompt
    /\ occurs_in (render_turn (PStr "what is said?", "A greeting.")) prompt.
Proof.
  apply (@change_video_keeps_the_conversation script scripted_world
           reference_urllib ansi_colorama
           (session_with_history [Reply "https://youtu.be/XYZ987"] [])).
  - vm_compute. reflexivity.
  - apply list_elem_of_here.
Defined.

Lemma answers_in_the_history_are_trimmed_witness :
  answers_trimmed
    (snd (_menu_loop 3 (session_with_history [Reply "2"; Reply "0"]
                          [Reply "  A short greeting.  "]))).
Proof.
  apply (proj1 (proj2 (proj2
           (@answers_in_the_history_are_trimmed script scripted_world
              reference_urllib ansi_colorama)))).
  repeat constructor.
Defined.

Lemma the_transcript_is_always_formatted_witness :
  transcript_formatted
    (snd (_menu_loop 3 (session_with_history
                          [Reply "6"; Reply "https://youtu.be/XYZ987"; Reply "0"]
                          []))).
Proof.
  apply (proj1 (proj2
           (@the_transcript_is_always_formatted script scripted_world
              reference_urllib ansi_colorama))).
  split; reflexivity.
Defined.

Lemma what_a_choice_can_touch_witness :
  _transcript (snd (menu_iteration 1
                      (session_with_history [Reply "3"; Reply "exit"] [])))
  = "Hello world." +:+ nl +:+ "How are you?"
  /\ _chat_history (snd (menu_iteration 1
                           (session_with_history
                              [Reply "6"; Reply "https://youtu.be/XYZ987"] [])))
     = [(PStr "what is said?", "A greeting.")].
Proof.
  split.
  - apply (proj1 (@what_a_choice_can_touch script scripted_world
                    reference_urllib ansi_colorama 1
                    (session_with_history [Reply "3"; Reply "exit"] []) "3"
                    (mkScript [Reply "exit"] [Reply example_captions]
                       [Reply "Bye now, friends. See you."] [])
                    eq_refl)).
    discriminate.
  - apply (proj1 (proj2
             (@what_a_choice_can_touch script scripted_world
                reference_urllib ansi_colorama 1
                (session_with_history
                   [Reply "6"; Reply "https://youtu.be/XYZ987"] []) "6"
                (mkScript [Reply "https://youtu.be/XYZ987"]
                   [Reply example_captions]
                   [Reply "Bye now, friends. See you."] [])
                eq_refl))).
    not_in_list.
Defined.
